(** * Shallow embedding of the story-voyage illustration pipeline

    The TypeScript sources modelled here are
    - [src/lib/supabase.ts]               : [uploadImageToStorage]
    - [app/api/illustrate/route.ts]       : the single-illustration [POST]
    - [app/api/advanced-illustrate/route.ts] : prompt and [processImageResponse]
    - [app/api/generate/route.ts]         : [generateIllustration]
    - the batch route (unnamed part 5)    : [POST], [generatePageIllustration],
                                            [processImageResponse]
    - the image proxy (unnamed part 5)    : [GET]
    - the cleanup route (unnamed part 3)  : [POST]

    JavaScript numbers are modelled as exact rationals ([Q]) plus the special
    value [NaN] where the code can produce it; asynchronous calls are modelled
    by their settled outcome ([promise]), and effects on the local file system
    by an exception-and-log monad ([M]). *)

From Stdlib Require Import String Ascii List Bool ZArith QArith Qround Lia.
From Stdlib Require Import Qabs Permutation Sorted.
Import ListNotations.
Open Scope string_scope.

(* ------------------------------------------------------------------ *)
(** ** JavaScript string helpers *)

Module Js.

(** [s.startsWith(p)] *)
Definition starts_with (p s : string) : bool := String.prefix p s.

(** [s.endsWith(p)] *)
Definition ends_with (p s : string) : bool :=
  let n := String.length s in
  let m := String.length p in
  (m <=? n)%nat && String.eqb (substring (n - m) m s) p.

(** [s.includes(p)] *)
Fixpoint includes (p s : string) : bool :=
  match s with
  | EmptyString => String.prefix p s
  | String _ rest => String.prefix p s || includes p rest
  end.

(** [s.split(c)] for a one-character separator. *)
Fixpoint split (c : ascii) (s : string) : list string :=
  match s with
  | EmptyString => [EmptyString]
  | String a rest =>
      if Ascii.eqb a c then EmptyString :: split c rest
      else match split c rest with
           | [] => [String a EmptyString]
           | w :: ws => String a w :: ws
           end
  end.

(** [xs[i]] on an array of strings: [undefined] out of range. *)
Definition at_index (xs : list string) (i : nat) : option string := nth_error xs i.

(** JavaScript truthiness of an optional string ([undefined] or [""] are falsy). *)
Definition truthy (o : option string) : bool :=
  match o with
  | Some s => negb (String.eqb s "")
  | None => false
  end.

(** Decimal rendering of an integer, as [String(n)] does. *)
Fixpoint digits_of_pos (fuel : nat) (n : N) (acc : string) : string :=
  match fuel with
  | O => acc
  | S f =>
      let d := N.modulo n 10 in
      let acc' := String (ascii_of_N (48 + d)) acc in
      let q := N.div n 10 in
      if (q =? 0)%N then acc' else digits_of_pos f q acc'
  end.

Definition string_of_Z (z : Z) : string :=
  match z with
  | Z0 => "0"
  | Zpos p => digits_of_pos (Pos.size_nat p) (Npos p) ""
  | Zneg p => "-" ++ digits_of_pos (Pos.size_nat p) (Npos p) ""
  end.

(** JavaScript numbers: a finite value (kept exact) or [NaN]. *)
Inductive number := Fin (q : Q) | NaN.

(** [a / b] on finite operands; [0 / 0] is [NaN].  (Other divisions by zero
    give infinities; the code below never divides a non-zero value by zero.) *)
Definition div (a b : Q) : number :=
  if Qeq_bool b 0 then NaN else Fin (a / b).

Definition mul (x : number) (k : Q) : number :=
  match x with Fin q => Fin (q * k) | NaN => NaN end.

(** [Math.round]: nearest integer, halves rounded up. *)
Definition round (x : number) : number :=
  match x with
  | Fin q => Fin (inject_Z (Qfloor (q + (1 # 2))))
  | NaN => NaN
  end.

(** [`${x}`] for the integral values [Math.round] returns, and for [NaN]. *)
Definition string_of_rounded (x : number) : string :=
  match x with
  | Fin q => string_of_Z (Qfloor q)
  | NaN => "NaN"
  end.

(** Digits of a proper fraction [n/d] (with [0 <= n < d]), at most [fuel] of
    them, stopping when the expansion terminates. *)
Fixpoint frac_digits (fuel : nat) (n : Z) (d : positive) : string :=
  match fuel with
  | O => ""
  | S f =>
      if (n =? 0)%Z then "" else
      let n10 := (10 * n)%Z in
      String (ascii_of_N (48 + Z.to_N (n10 / Zpos d))) (frac_digits f (n10 mod Zpos d) d)
  end.

(** [`${x}`] of a finite number: integers exactly; other values by their
    decimal expansion, cut after 20 digits (JavaScript prints the shortest
    digit string that reads back as the same double). *)
Definition string_of_number (q : Q) : string :=
  let sign := if Qle_bool 0 q then "" else "-" in
  let a := Qabs q in
  let ip := Qfloor a in
  let rest := (Qnum a - ip * Zpos (Qden a))%Z in
  if (rest =? 0)%Z then sign ++ string_of_Z ip
  else sign ++ string_of_Z ip ++ "." ++ frac_digits 20 rest (Qden a).

(** [Math.min] on finite numbers. *)
Definition min (a b : Q) : Q := if Qle_bool a b then a else b.

(** [ToIntegerOrInfinity] of a finite number: truncation toward zero. *)
Definition trunc (q : Q) : Z :=
  if Qle_bool 0 q then Qfloor q else - Qfloor (- q).

(** Relative index of [Array.prototype.slice]: negative counts from the end,
    the result is clamped to [0, len]. *)
Definition rel_index (q : Q) (len : nat) : nat :=
  let z := trunc q in
  if (z <? 0)%Z then Z.to_nat (Z.max 0 (Z.of_nat len + z))
  else Nat.min (Z.to_nat z) len.

(** [xs.slice(start, end)] *)
Definition slice {A} (xs : list A) (start stop : Q) : list A :=
  let s := rel_index start (List.length xs) in
  let e := rel_index stop (List.length xs) in
  firstn (e - s) (skipn s xs).

End Js.

(* ------------------------------------------------------------------ *)
(** ** Node's [path.join] (POSIX) *)

Module Path.

(** [normalizeString] of Node's [path] module, on the components of a path. *)
Fixpoint normalize_components (allow_above_root : bool) (res : list string)
    (comps : list string) : list string :=
  match comps with
  | [] => res
  | c :: cs =>
      if String.eqb c "" || String.eqb c "." then
        normalize_components allow_above_root res cs
      else if String.eqb c ".." then
        match rev res with
        | last :: before =>
            if String.eqb last ".." then
              normalize_components allow_above_root
                (if allow_above_root then res ++ [".."] else res) cs
            else normalize_components allow_above_root (rev before) cs
        | [] =>
            normalize_components allow_above_root
              (if allow_above_root then [".."] else []) cs
        end
      else normalize_components allow_above_root (res ++ [c]) cs
  end.

(** [path.normalize] *)
Definition normalize (p : string) : string :=
  if String.eqb p "" then "." else
  let absolute := Js.starts_with "/" p in
  let trailing := Js.ends_with "/" p in
  let comps := normalize_components (negb absolute) [] (Js.split "/" p) in
  let s := String.concat "/" comps in
  let s := if String.eqb s "" && negb absolute then "." else s in
  let s := if negb (String.eqb s "") && trailing then s ++ "/" else s in
  if absolute then "/" ++ s else s.

(** [path.join(...segments)] *)
Definition join (segs : list string) : string :=
  let joined := String.concat "/" (filter (fun s => negb (String.eqb s "")) segs) in
  if String.eqb joined "" then "." else normalize joined.

End Path.

(* ------------------------------------------------------------------ *)
(** ** Settled promises, exceptions and file-system effects *)

(** The settled outcome of an awaited promise. *)
Inductive promise (A : Type) :=
| Resolves (v : A)
| Rejects (msg : string).
Arguments Resolves {A} v.
Arguments Rejects {A} msg.

(** [Buffer.from(s, "base64")]: Node decodes leniently and never throws, so
    the buffer is kept as the base64 text it was decoded from. *)
Inductive buffer := FromBase64 (b64 : string).

(** Observable effects on the local file system. *)
Inductive effect :=
| Mkdir (dir : string)
| WriteFile (path : string) (data : buffer)
| Unlink (path : string).

(** A computation that may throw an [Error] (with its message) and leaves a
    log of the effects it performed, also those performed before a throw. *)
Inductive exc (A : Type) := Ok (a : A) | Exn (msg : string).
Arguments Ok {A} a.
Arguments Exn {A} msg.

Definition M (A : Type) : Type := (exc A * list effect)%type.

Definition ret {A} (a : A) : M A := (Ok a, []).

Definition bind {A B} (m : M A) (f : A -> M B) : M B :=
  match m with
  | (Ok a, w) => let (r, w') := f a in (r, app w w')
  | (Exn e, w) => (Exn e, w)
  end.

Definition throw {A} (msg : string) : M A := (Exn msg, []).

(** [try { m } catch (e) { h(e) }] *)
Definition try_catch {A} (m : M A) (h : string -> M A) : M A :=
  match m with
  | (Ok a, w) => (Ok a, w)
  | (Exn e, w) => let (r, w') := h e in (r, app w w')
  end.

Definition tell (e : effect) : M unit := (Ok tt, [e]).

(** [await p] *)
Definition await {A} (p : promise A) : M A :=
  match p with
  | Resolves v => ret v
  | Rejects msg => throw msg
  end.

Notation "'let*' x ':=' c1 'in' c2" := (bind c1 (fun x => c2))
  (at level 61, x pattern, c1 at next level, right associativity).

(* ------------------------------------------------------------------ *)
(** ** Persistence sink: [uploadImageToStorage] (src/lib/supabase.ts) *)

Module Storage.

(** A storage-client reply: [{ data }] or [{ error }]. *)
Inductive reply (A : Type) := Data (a : A) | Error (msg : string).
Arguments Data {A} a.
Arguments Error {A} msg.

(** What the outside world answers to one call of [uploadImageToStorage]:
    the storage service, the process and the local file system. *)
Record env := {
  service_key_set : bool;                       (* supabaseAdmin is non-null *)
  list_buckets : promise (reply (list string));  (* bucket names *)
  create_bucket : promise (reply unit);
  upload : promise (reply string);               (* data.path *)
  public_url : string -> string;                 (* getPublicUrl(path).publicUrl *)
  cwd : string;                                  (* process.cwd() *)
  mkdir_result : promise unit;
  write_result : promise unit
}.

Definition images_dir (e : env) : string := Path.join [cwd e; "public"; "images"].

(** Bucket check and creation, run only when the service-role client exists;
    replied errors are logged and ignored. *)
Definition ensure_bucket (e : env) (bucket : string) : M unit :=
  if service_key_set e then
    let* r := await (list_buckets e) in
    match r with
    | Error _ => ret tt
    | Data buckets =>
        if existsb (String.eqb bucket) buckets then ret tt
        else let* _ := await (create_bucket e) in ret tt
    end
  else ret tt.

(** The local fallback: [mkdir -p] then [writeFile], then the path-based URL. *)
Definition local_fallback (e : env) (buf : buffer) (filename : string) : M string :=
  let image_path := Path.join [cwd e; "public"; "images"; filename] in
  let* _ := await (mkdir_result e) in
  let* _ := tell (Mkdir (images_dir e)) in
  let* _ := await (write_result e) in
  let* _ := tell (WriteFile image_path buf) in
  ret ("/images/" ++ filename).

(** The body of the [try] block. *)
Definition upload_body (e : env) (buf : buffer) (filename bucket : string) : M string :=
  let* _ := ensure_bucket e bucket in
  let* up := await (upload e) in
  match up with
  | Error _ => local_fallback e buf filename
  | Data path => ret (public_url e path)
  end.

(** [uploadImageToStorage(imageBuffer, filename, bucketName = 'story-images')]:
    [null] is [None]. *)
Definition uploadImageToStorage (e : env) (buf : buffer) (filename : string)
    (bucket : string) : M (option string) :=
  try_catch (let* u := upload_body e buf filename bucket in ret (Some u))
            (fun _ => ret None).

Definition default_bucket : string := "story-images".

(** The setup phase throws: the bucket listing or the bucket creation rejects. *)
Definition setup_rejects (e : env) (bucket : string) : bool :=
  service_key_set e &&
  match list_buckets e with
  | Rejects _ => true
  | Resolves (Error _) => false
  | Resolves (Data bs) =>
      negb (existsb (String.eqb bucket) bs) &&
      match create_bucket e with Rejects _ => true | Resolves _ => false end
  end.

Definition is_rejected {A} (p : promise A) : bool :=
  match p with Rejects _ => true | Resolves _ => false end.

Definition upload_replied_error (e : env) : bool :=
  match upload e with Resolves (Error _) => true | _ => false end.

End Storage.

(* ------------------------------------------------------------------ *)
(** ** Generation responses and the response extractors *)

Module Extract.

(** One part of [response.candidates[i].content.parts]: [inlineData] is
    absent ([None]) or an object whose [data] may be absent ([Some None]). *)
Record gen_part := {
  inlineData : option (option string);
  text : option string
}.

Record gen_content := { parts : option (list gen_part) }.
Record gen_candidate := { content : option gen_content }.
Record gen_response := { candidates : option (list gen_candidate) }.

(** [response.candidates?.[0]?.content?.parts] *)
Definition first_parts (r : gen_response) : option (list gen_part) :=
  match candidates r with
  | Some (c :: _) => match content c with Some ct => parts ct | None => None end
  | _ => None
  end.

(** [Date.now()] and [Math.random().toString(36).substring(2, 8)]. [Date.now()]
    is a time value: an integer of magnitude at most 8.64e15 ms. *)
Record clock := {
  now : Z;
  random_id : string;
  now_time_value : (Z.abs now <=? 8640000000000000)%Z = true
}.

(** The loop shared by the [processImageResponse] helpers of the batch and
    advanced routes: the first part whose [inlineData.data] is truthy is
    decoded and handed to the persistence sink; other parts are skipped. *)
Fixpoint process_parts (se : Storage.env) (filename : string) (ps : list gen_part)
    : M (option string) :=
  match ps with
  | [] => ret None
  | p :: rest =>
      match inlineData p with
      | Some image_data =>
          match image_data with
          | Some d =>
              if negb (String.eqb d "") then
                Storage.uploadImageToStorage se (FromBase64 d) filename
                  Storage.default_bucket
              else process_parts se filename rest
          | None => process_parts se filename rest
          end
      | None => process_parts se filename rest
      end
  end.

Definition process_response (se : Storage.env) (filename : string) (r : gen_response)
    : M (option string) :=
  try_catch
    (match first_parts r with
     | Some ps => process_parts se filename ps
     | None => ret None
     end)
    (fun _ => ret None).

(** [processImageResponse(response, pageIndex)] of the batch route. *)
Definition batch_filename (clk : clock) (pageIndex : Q) : string :=
  "batch_illustration_" ++ Js.string_of_Z (now clk) ++ "_page"
  ++ Js.string_of_number (pageIndex + 1) ++ "_" ++ random_id clk ++ ".png".

Definition batch_processImageResponse (se : Storage.env) (clk : clock)
    (r : gen_response) (pageIndex : Q) : M (option string) :=
  process_response se (batch_filename clk pageIndex) r.

(** [processImageResponse(response, pageIndex?)] of the advanced route. *)
Definition advanced_filename (clk : clock) (pageIndex : option Q) : string :=
  let page_suffix :=
    match pageIndex with
    | Some i => "_page" ++ Js.string_of_number (i + 1)
    | None => ""
    end in
  "advanced_illustration_" ++ Js.string_of_Z (now clk) ++ "_" ++ random_id clk
  ++ page_suffix ++ ".png".

Definition advanced_processImageResponse (se : Storage.env) (clk : clock)
    (r : gen_response) (pageIndex : option Q) : M (option string) :=
  process_response se (advanced_filename clk pageIndex) r.

(** The extraction loop of the single-illustration route
    (app/api/illustrate/route.ts, lines 73-100): it throws when the first part
    carrying [inlineData] has no data, or when the upload yields [null]. *)
Definition illustrate_filename (clk : clock) : string :=
  "illustration_" ++ Js.string_of_Z (now clk) ++ "_" ++ random_id clk ++ ".png".

Fixpoint illustrate_parts (se : Storage.env) (filename : string) (ps : list gen_part)
    : M (option string) :=
  match ps with
  | [] => ret None
  | p :: rest =>
      match inlineData p with
      | Some image_data =>
          if Js.truthy image_data then
            let d := match image_data with Some d => d | None => "" end in
            let* url := Storage.uploadImageToStorage se (FromBase64 d) filename
                          Storage.default_bucket in
            match url with
            | Some u => ret (Some u)
            | None => throw "Failed to upload image to storage"
            end
          else throw "No image data received"
      | None => illustrate_parts se filename rest
      end
  end.

Definition illustrate_extract (se : Storage.env) (clk : clock) (r : gen_response)
    : M (option string) :=
  match first_parts r with
  | Some ps => illustrate_parts se (illustrate_filename clk) ps
  | None => ret None
  end.

(** Local file-system answers for [generateIllustration]. *)
Record fs_env := { fs_cwd : string; fs_mkdir : promise unit; fs_write : promise unit }.

(** [mkdir(join(cwd, "public", "images"), { recursive: true })] *)
Definition mkdir_images (fe : fs_env) : M unit :=
  let* _ := await (fs_mkdir fe) in tell (Mkdir (Path.join [fs_cwd fe; "public"; "images"])).

(** [writeFile(imagePath, buffer)] *)
Definition write_image (fe : fs_env) (filename : string) (b : buffer) : M unit :=
  let* _ := await (fs_write fe) in
  tell (WriteFile (Path.join [fs_cwd fe; "public"; "images"; filename]) b).

(** The loop of [generateIllustration] (app/api/generate/route.ts): for each
    part, first the [inlineData] branch, then the data-URL branch on the same
    part, before moving on to the next part. *)
Fixpoint generate_parts (fe : fs_env) (filename : string) (ps : list gen_part)
    : M (option string) :=
  match ps with
  | [] => ret None
  | p :: rest =>
      let* found :=
        match inlineData p with
        | Some image_data =>
            let* _ := mkdir_images fe in
            match image_data with
            | Some d =>
                if negb (String.eqb d "") then
                  let* _ := write_image fe filename (FromBase64 d) in
                  ret (Some ("/images/" ++ filename))
                else ret None
            | None => ret None
            end
        | None => ret None
        end in
      match found with
      | Some u => ret (Some u)
      | None =>
          let data_url :=
            match text p with
            | Some t =>
                if negb (String.eqb t "") && Js.includes "data:image" t then
                  Js.at_index (Js.split "," t) 1
                else None
            | None => None
            end in
          match data_url with
          | Some b64 =>
              if negb (String.eqb b64 "") then
                let* _ := mkdir_images fe in
                let* _ := write_image fe filename (FromBase64 b64) in
                ret (Some ("/images/" ++ filename))
              else generate_parts fe filename rest
          | None => generate_parts fe filename rest
          end
      end
  end.

(** [generateIllustration(ai, prompt)], from the settled model call on. *)
Definition generateIllustration (fe : fs_env) (clk : clock)
    (gen : promise gen_response) : M (option string) :=
  try_catch
    (let* response := await gen in
     match first_parts response with
     | Some ps => generate_parts fe (illustrate_filename clk) ps
     | None => ret None
     end)
    (fun _ => ret None).

(** Helpers to state what the extractors look at. *)
Definition response_parts (r : gen_response) : list gen_part :=
  match first_parts r with Some ps => ps | None => [] end.

(** The part carries truthy inline image data. *)
Definition inline_image (p : gen_part) : bool :=
  match inlineData p with Some (Some d) => negb (String.eqb d "") | _ => false end.

(** The part carries an [inlineData] field at all. *)
Definition has_inline_field (p : gen_part) : bool :=
  match inlineData p with Some _ => true | None => false end.

(** The base64 payload of a data URL in the part's text, as
    [generateIllustration] takes it. *)
Definition data_url_image (p : gen_part) : option string :=
  match text p with
  | Some t =>
      if negb (String.eqb t "") && Js.includes "data:image" t then
        match Js.at_index (Js.split "," t) 1 with
        | Some b => if negb (String.eqb b "") then Some b else None
        | None => None
        end
      else None
  | None => None
  end.

(** Per part: the inline data first, else the data URL of the same part. *)
Definition part_image (p : gen_part) : option string :=
  match inlineData p with
  | Some (Some d) => if negb (String.eqb d "") then Some d else data_url_image p
  | _ => data_url_image p
  end.

Fixpoint first_image (ps : list gen_part) : option string :=
  match ps with
  | [] => None
  | p :: rest => match part_image p with Some b => Some b | None => first_image rest end
  end.

(** The buffers written to disk, in order. *)
Definition written (eff : list effect) : list buffer :=
  flat_map (fun e => match e with WriteFile _ b => [b] | _ => [] end) eff.

End Extract.

(* ------------------------------------------------------------------ *)
(** ** Prompt composers *)

Module Prompt.

Inductive style := realistic | cartoon | watercolor | sketch.

Definition style_clause (s : style) : string :=
  match s with
  | realistic => "Style: photorealistic, warm and inviting, suitable for ages 3-12. "
  | cartoon => "Style: colorful cartoon illustration, friendly and engaging, suitable for ages 3-12. "
  | watercolor => "Style: soft watercolor painting, artistic and dreamy, suitable for ages 3-12. "
  | sketch => "Style: detailed pencil sketch with light coloring, educational and clear, suitable for ages 3-12. "
  end.

Definition description_clause (d : string) : string :=
  "Character consistency: Maintain the same character appearance as described: " ++ d ++ ". ".

Definition generic_clause : string :=
  "Character consistency: Maintain consistent character appearance throughout the story. ".

Definition edit_clause : string :=
  "This is an edit/continuation of a previous scene. Maintain visual continuity and character consistency. ".

Definition closing_clause : string :=
  "Lighting: soft, natural lighting. Colors: vibrant but not overwhelming. Composition: clean, uncluttered, focus on the main subject. ".

(** [enhancedPrompt] is built by successive [+=]; it is kept here as the list
    of the appended pieces, the prompt being their concatenation. *)
Definition render (pieces : list string) : string := String.concat "" pieces.

(** Single-illustration route (app/api/illustrate/route.ts, lines 35-65). *)
Definition illustrate_pieces (prompt : string) (characterDescription : option string)
    (previousImageUrl : option string) (st : style) (consistencyMode editMode : bool)
    : list string :=
  ["Create a high-quality children's book illustration. "; style_clause st]
  ++ (if Js.truthy characterDescription then
        [description_clause (match characterDescription with Some d => d | None => "" end)]
      else if consistencyMode then [generic_clause] else [])
  ++ (if editMode && Js.truthy previousImageUrl then [edit_clause] else [])
  ++ [closing_clause ++ prompt].

Definition illustrate_prompt prompt characterDescription previousImageUrl st
    consistencyMode editMode : string :=
  render (illustrate_pieces prompt characterDescription previousImageUrl st
            consistencyMode editMode).

(** Advanced route (app/api/advanced-illustrate/route.ts, lines 50-82). *)
Definition advanced_pieces (prompt : string) (characterDescription : option string)
    (previousImageUrl : option string) (st : style)
    (consistencyMode editMode fusionMode : bool) : list string :=
  ["Create a high-quality children's book illustration with advanced features. ";
   style_clause st]
  ++ (if consistencyMode && Js.truthy characterDescription then
        [description_clause (match characterDescription with Some d => d | None => "" end)]
      else [])
  ++ (if editMode && Js.truthy previousImageUrl then [edit_clause] else [])
  ++ (if fusionMode then ["Use image fusion techniques to blend multiple elements seamlessly. "]
      else [])
  ++ [closing_clause ++ prompt].

Definition advanced_prompt prompt characterDescription previousImageUrl st
    consistencyMode editMode fusionMode : string :=
  render (advanced_pieces prompt characterDescription previousImageUrl st
            consistencyMode editMode fusionMode).

(** Batch route, [generatePageIllustration] (lines 119-154). *)
Definition batch_pieces (page_prompt : string) (pageIndex : Q)
    (characterDescription : option string) (st : style)
    (consistencyMode fusionMode : bool) : list string :=
  ["Create a high-quality children's book illustration for page "
     ++ Js.string_of_number (pageIndex + 1) ++ ". ";
   style_clause st]
  ++ (if Js.truthy characterDescription then
        [description_clause (match characterDescription with Some d => d | None => "" end)]
      else if consistencyMode then [generic_clause] else [])
  ++ (if negb (Qle_bool pageIndex 0) then
        ["This is a continuation of the story. Maintain visual continuity with previous scenes. "]
      else [])
  ++ (if fusionMode then
        ["Use advanced image fusion techniques to blend multiple story elements seamlessly. "]
      else [])
  ++ [closing_clause ++ page_prompt].

Definition batch_prompt page_prompt pageIndex characterDescription st
    consistencyMode fusionMode : string :=
  render (batch_pieces page_prompt pageIndex characterDescription st
            consistencyMode fusionMode).

(** [s] occurs in [t] as a substring. *)
Definition occurs_in (s t : string) : Prop := exists pre post, t = pre ++ s ++ post.

End Prompt.

(* ------------------------------------------------------------------ *)
(** ** Batch orchestrator (batch route, unnamed part 5) *)

Module Batch.

(** One element of [pages]: [{ text, prompt, pageIndex }]. *)
Record page := { text : string; prompt : string; pageIndex : Q }.

(** The parsed body; [valid_body] is the part of [BodySchema] not already
    enforced by the types ([batchSize: z.number().min(1).max(5)]); zod
    defaults are already applied. *)
Record body := {
  bookId : string;
  pages : list page;
  characterDescription : option string;
  style : Prompt.style;
  consistencyMode : bool;
  fusionMode : bool;
  batchSize : Q
}.

Definition valid_body (b : body) : bool :=
  Qle_bool 1 (batchSize b) && Qle_bool (batchSize b) 5.

(** What the outside world answers for one page's pipeline invocation: the
    model call (given the prompt it receives), the persistence sink and the
    clock and random source used for the file name. *)
Record page_env := {
  generation : string -> promise Extract.gen_response;
  storage : Storage.env;
  page_clock : Extract.clock
}.

(** The object [generatePageIllustration] resolves to. *)
Record batch_result := {
  success : bool;
  result_pageIndex : Q;
  imageUrl : option string;
  error : option string;
  result_prompt : option string;
  result_text : option string;
  features : option (list (string * string))
}.

Definition style_name (s : Prompt.style) : string :=
  match s with
  | Prompt.realistic => "realistic"
  | Prompt.cartoon => "cartoon"
  | Prompt.watercolor => "watercolor"
  | Prompt.sketch => "sketch"
  end.

Definition failure (pageIndex : Q) (msg : string) : batch_result :=
  {| success := false; result_pageIndex := pageIndex; imageUrl := None;
     error := Some msg; result_prompt := None; result_text := None;
     features := None |}.

Definition enabled (b : bool) : string := if b then "Enabled" else "Disabled".

(** [generatePageIllustration(ai, page, pageIndex, characterDescription,
    style, consistencyMode, fusionMode, pages)] *)
Definition generatePageIllustration (pe : page_env) (pg : page) (pageIndex : Q)
    (characterDescription : option string) (st : Prompt.style)
    (consistencyMode fusionMode : bool) : M batch_result :=
  try_catch
    (let enhancedPrompt :=
       Prompt.batch_prompt (prompt pg) pageIndex characterDescription st
         consistencyMode fusionMode in
     let* response := await (generation pe enhancedPrompt) in
     let* url := Extract.batch_processImageResponse (storage pe) (page_clock pe)
                   response pageIndex in
     if negb (Js.truthy url) then ret (failure pageIndex "No image generated")
     else
       ret {| success := true; result_pageIndex := pageIndex; imageUrl := url;
              error := None; result_prompt := Some (prompt pg);
              result_text := Some (text pg);
              features := Some [("style", style_name st);
                                ("consistencyMode", enabled consistencyMode);
                                ("fusionMode", enabled fusionMode);
                                ("characterDescription",
                                  if Js.truthy characterDescription then "Applied"
                                  else "None")] |})
    (fun msg => ret (failure pageIndex msg)).

(** [Promise.all]: all results, or the first rejection (taken in list order;
    the effects of all the started invocations are kept). *)
Fixpoint all {A} (xs : list (M A)) : M (list A) :=
  match xs with
  | [] => ret []
  | x :: rest =>
      match x with
      | (Ok a, w) => let (r, w') := all rest in
                     (match r with Ok l => Ok (a :: l) | Exn e => Exn e end, app w w')
      | (Exn e, w) => let (_, w') := all rest in (Exn e, app w w')
      end
  end.

Fixpoint mapi_from {A B} (f : nat -> A -> B) (i : nat) (l : list A) : list B :=
  match l with
  | [] => []
  | x :: rest => f i x :: mapi_from f (S i) rest
  end.

Definition QN (n : nat) : Q := inject_Z (Z.of_nat n).

(** [Math.ceil(pages.length / batchSize)] *)
Definition total_batches (b : body) : Z :=
  Qceiling (QN (length (pages b)) / batchSize b).

Definition start_index (b : body) (batchIndex : nat) : Q := QN batchIndex * batchSize b.

Definition end_index (b : body) (batchIndex : nat) : Q :=
  Js.min (start_index b batchIndex + batchSize b) (QN (length (pages b))).

(** One iteration of the [for] loop: the pages of the chunk, each with the
    answers of the outside world for its position in [pages]. *)
Definition batch_invocations (env : nat -> page_env) (b : body) (batchIndex : nat)
    : list (M batch_result) :=
  let startIndex := start_index b batchIndex in
  let batchPages := Js.slice (pages b) startIndex (end_index b batchIndex) in
  let first := Js.rel_index startIndex (length (pages b)) in
  mapi_from
    (fun i pg =>
       generatePageIllustration (env (first + i)%nat) pg (startIndex + QN i)
         (characterDescription b) (style b) (consistencyMode b) (fusionMode b))
    0 batchPages.

(** The [for] loop over the chunks, [results.push(...batchResults)]; the pause
    between chunks has no observable effect here. *)
Fixpoint run_batches (env : nat -> page_env) (b : body) (ks : list nat)
    : M (list batch_result) :=
  match ks with
  | [] => ret []
  | k :: ks' =>
      let* r := all (batch_invocations env b k) in
      let* rs := run_batches env b ks' in
      ret (r ++ rs)%list
  end.

Record summary := {
  totalPages : nat;
  successful : nat;
  failed : nat;
  successRate : string
}.

Inductive reply :=
| BatchOk (bookId : string) (results failedResults : list batch_result)
    (summary : summary) (totalBatches : Z) (batchSize : Q) (processingTime : Z)
| BatchError (status : Z) (msg : string).

Definition success_rate (s n : nat) : string :=
  Js.string_of_rounded (Js.round (Js.mul (Js.div (QN s) (QN n)) 100)) ++ "%".

(** [POST] of the batch route. *)
Definition POST (apiKey : option string) (b : body) (env : nat -> page_env)
    (now_ms : Z) : M reply :=
  if negb (Js.truthy apiKey) then ret (BatchError 500 "Missing GOOGLE_GENAI_API_KEY")
  else if negb (valid_body b) then ret (BatchError 400 "Invalid body")
  else
    try_catch
      (let totalBatches := total_batches b in
       let* results := run_batches env b (seq 0 (Z.to_nat totalBatches)) in
       let successfulResults := filter success results in
       let failedResults := filter (fun r => negb (success r)) results in
       ret (BatchOk (bookId b) successfulResults failedResults
              {| totalPages := length (pages b);
                 successful := length successfulResults;
                 failed := length failedResults;
                 successRate := success_rate (length successfulResults)
                                  (length (pages b)) |}
              totalBatches (batchSize b) now_ms))
      (fun msg => ret (BatchError 500 msg)).

End Batch.

(* ------------------------------------------------------------------ *)
(** ** Image read endpoint: [GET] of the image proxy (unnamed part 5) *)

Module ImageProxy.

(** [s.toLowerCase()] on ASCII letters. *)
Definition lower (c : ascii) : ascii :=
  let n := nat_of_ascii c in
  if (65 <=? n)%nat && (n <=? 90)%nat then ascii_of_nat (n + 32) else c.

Fixpoint to_lower (s : string) : string :=
  match s with
  | EmptyString => EmptyString
  | String c rest => String (lower c) (to_lower rest)
  end.

Inductive reply :=
| Served (content_type : string) (data : buffer) (cache_control : string)
| Forbidden
| NotFound.

Definition content_type (extension : option string) : string :=
  match extension with
  | Some "jpg" | Some "jpeg" => "image/jpeg"
  | Some "png" => "image/png"
  | Some "gif" => "image/gif"
  | Some "webp" => "image/webp"
  | _ => "image/png"
  end.

(** [GET(request, { params })] with [params.path = segments]; [readFile]
    answers for the resolved path. *)
Definition GET (cwd : string) (segments : list string)
    (readFile : string -> promise buffer) : reply :=
  let imagePath := Path.join ([cwd; "public"; "images"] ++ segments)%list in
  let resolvedPath := Path.join [cwd; "public"; "images"] in
  if negb (Js.starts_with resolvedPath imagePath) then Forbidden
  else
    match readFile imagePath with
    | Rejects _ => NotFound
    | Resolves imageBuffer =>
        match last (map Some segments) None with
        | None => NotFound   (* [path[-1].split] throws on [undefined] *)
        | Some seg =>
            let extension := option_map to_lower (last (map Some (Js.split "." seg)) None) in
            Served (content_type extension) imageBuffer "public, max-age=31536000, immutable"
        end
  end.

(** A path lies in the directory [dir]: it is [dir] or below [dir + "/"]. *)
Definition inside (dir p : string) : bool :=
  String.eqb p dir || Js.starts_with (dir ++ "/") p.

End ImageProxy.

(* ------------------------------------------------------------------ *)
(** ** Retention sweep: [POST] of the cleanup route (unnamed part 3) *)

Module Cleanup.

Definition is_space (c : ascii) : bool :=
  Ascii.eqb c " " || Ascii.eqb c (ascii_of_nat 9) || Ascii.eqb c (ascii_of_nat 10)
  || Ascii.eqb c (ascii_of_nat 13).

Fixpoint skip_spaces (s : string) : string :=
  match s with
  | String c rest => if is_space c then skip_spaces rest else s
  | EmptyString => EmptyString
  end.

Definition digit_value (c : ascii) : option Z :=
  let n := Z.of_nat (nat_of_ascii c) in
  if (48 <=? n)%Z && (n <=? 57)%Z then Some (n - 48)%Z
  else if (97 <=? n)%Z && (n <=? 122)%Z then Some (n - 87)%Z
  else if (65 <=? n)%Z && (n <=? 90)%Z then Some (n - 55)%Z
  else None.

(** The longest prefix of digits in [radix]; [None] when there is none. *)
Fixpoint digits (radix : Z) (acc : option Z) (s : string) : option Z :=
  match s with
  | String c rest =>
      match digit_value c with
      | Some d =>
          if (d <? radix)%Z then
            digits radix (Some (radix * match acc with Some a => a | None => 0 end + d)%Z) rest
          else acc
      | None => acc
      end
  | EmptyString => acc
  end.

(** The integer [parseInt(s)] (no radix) reads, before it becomes a number
    ([mathInt] in the language definition): [None] is [NaN]. *)
Definition mathInt (s : string) : option Z :=
  let s := skip_spaces s in
  let '(neg, s) :=
    match s with
    | String "-" rest => (true, rest)
    | String "+" rest => (false, rest)
    | _ => (false, s)
    end in
  let v :=
    match s with
    | String "0" (String x rest) =>
        if Ascii.eqb x "x" || Ascii.eqb x "X" then digits 16 None rest
        else digits 10 None s
    | _ => digits 10 None s
    end in
  option_map (fun z => if neg then (- z)%Z else z) v.

(** Numbers are doubles. A double that holds an integer is that integer; the
    infinities are encoded as [2^1024] and [-2^1024], beyond every finite
    double, so that [Z]'s order is the order of the numbers (the comparator
    [b - a] below never needs more: its sign is that of the comparison, and
    [Infinity - Infinity] is [NaN], which the sort takes as a tie). *)
Definition infinity : Z := Z.pow 2 1024.

(** [Number(x)] of an integer [x]: the nearest double, ties to an even
    significand (53 bits), [Infinity] from [2^1024] on. *)
Definition to_double (z : Z) : Z :=
  let a := Z.abs z in
  let r :=
    if (Z.log2 a <? 53)%Z then a
    else
      let sh := (Z.log2 a - 52)%Z in
      let q := Z.shiftr a sh in
      let rem := (a - Z.shiftl q sh)%Z in
      let half := Z.shiftl 1 (sh - 1) in
      let q' := if (half <? rem)%Z || ((rem =? half)%Z && Z.odd q) then (q + 1)%Z else q in
      Z.shiftl q' sh in
  (Z.sgn z * Z.min r infinity)%Z.

(** [parseInt(s)] (no radix): the double nearest to [mathInt s]; [None] is [NaN]. *)
Definition parseInt (s : string) : option Z := option_map to_double (mathInt s).

(** [file.startsWith("illustration_") && file.endsWith(".png")] *)
Definition eligible (file : string) : bool :=
  Js.starts_with "illustration_" file && Js.ends_with ".png" file.

(** [parseInt(file.split("_")[1]) || 0] *)
Definition timestamp (file : string) : Z :=
  match Js.at_index (Js.split "_" file) 1 with
  | Some s => match parseInt s with Some z => z | None => 0%Z end
  | None => 0%Z
  end.

(** [Array.prototype.sort] with comparator [(a, b) => b.timestamp - a.timestamp]:
    a stable sort, newest first (insertion sort). *)
Fixpoint insert (x : string * Z) (l : list (string * Z)) : list (string * Z) :=
  match l with
  | [] => [x]
  | y :: ys => if (snd y <? snd x)%Z then x :: y :: ys else y :: insert x ys
  end.

Definition sort_desc (l : list (string * Z)) : list (string * Z) :=
  fold_left (fun acc x => insert x acc) l [].

Definition retention : nat := 50.

(** [unlink(join(imagesDir, name))] on a directory listing: the entry goes
    away, unless the call fails: on a missing entry (ENOENT), or on a name the
    file system refuses to remove ([unlink_fails name]: EACCES, EPERM, EISDIR,
    a read-only file system). The error is caught and logged. *)
Definition unlink (unlink_fails : string -> bool) (name : string) (dir : list string)
    : list string :=
  if existsb (String.eqb name) dir && negb (unlink_fails name)
  then filter (fun f => negb (String.eqb f name)) dir
  else dir.

Fixpoint unlink_all (unlink_fails : string -> bool) (names : list string)
    (dir : list string) : list string :=
  match names with
  | [] => dir
  | n :: rest => unlink_all unlink_fails rest (unlink unlink_fails n dir)
  end.

Inductive reply := Counts (deleted kept : nat) | CleanupFailed.

(** [POST()] on the images directory ([None]: it does not exist, [readdir]
    rejects), the file system refusing to unlink the names [unlink_fails]
    holds of; returns the reply and the directory afterwards. *)
Definition POST (unlink_fails : string -> bool) (dir : option (list string))
    : reply * option (list string) :=
  match dir with
  | None => (CleanupFailed, None)
  | Some files =>
      let imageFiles := filter eligible files in
      let sortedFiles := sort_desc (map (fun f => (f, timestamp f)) imageFiles) in
      let filesToKeep := firstn retention sortedFiles in
      let filesToDelete := skipn retention sortedFiles in
      (Counts (length filesToDelete) (length filesToKeep),
       Some (unlink_all unlink_fails (map fst filesToDelete) files))
  end.


End Cleanup.

(* ------------------------------------------------------------------ *)
(** ** Sample inputs *)

(* ------------------------------------------------------------------ *)
(** ** The invocations the batch loop makes, listed in order *)

Module BatchPlan.
Import Batch.

(** The value a computation yields, [d] if it throws. *)
Definition value_or {A} (d : A) (m : M A) : A :=
  match fst m with Ok a => a | Exn _ => d end.

(** Where chunk [k] starts in [pages], as [slice] resolves its start. *)
Definition cut (b : body) (k : nat) : nat :=
  Js.rel_index (start_index b k) (length (pages b)).

(** The invocations of chunk [k]: the position of the page in [pages], the
    page, and the [globalPageIndex] it is given. *)
Definition chunk_plan (b : body) (k : nat) : list (nat * page * Q) :=
  mapi_from (fun i pg => ((cut b k + i)%nat, pg, start_index b k + QN i)) 0
    (Js.slice (pages b) (start_index b k) (end_index b k)).

Definition plan (b : body) : list (nat * page * Q) :=
  flat_map (chunk_plan b) (seq 0 (Z.to_nat (total_batches b))).

Definition position (t : nat * page * Q) : nat := fst (fst t).
Definition global_index (t : nat * page * Q) : Q := snd t.

(** The [BatchResult] of one planned invocation. *)
Definition outcome (env : nat -> page_env) (b : body) (t : nat * page * Q) : batch_result :=
  let '(j, pg, q) := t in
  value_or (failure 0 "")
    (generatePageIllustration (env j) pg q (characterDescription b) (style b)
       (consistencyMode b) (fusionMode b)).

End BatchPlan.

Module Samples.

Definition clk : Extract.clock :=
  {| Extract.now := 1700000000000; Extract.random_id := "k3x9qa";
     Extract.now_time_value := eq_refl |}.

Definition part (inline : option (option string)) (txt : option string) : Extract.gen_part :=
  {| Extract.inlineData := inline; Extract.text := txt |}.

Definition response_of (ps : list Extract.gen_part) : Extract.gen_response :=
  {| Extract.candidates :=
       Some [ {| Extract.content := Some {| Extract.parts := Some ps |} |} ] |}.

(** A storage service that is reachable and accepts every upload. *)
Definition storage_ok : Storage.env := {|
  Storage.service_key_set := false;
  Storage.list_buckets := Rejects "unused";
  Storage.create_bucket := Rejects "unused";
  Storage.upload := Resolves (Storage.Data "story-images/page.png");
  Storage.public_url := fun p => "https://cdn.example/" ++ p;
  Storage.cwd := "/srv/app";
  Storage.mkdir_result := Resolves tt;
  Storage.write_result := Resolves tt |}.

(** A storage service whose upload call rejects (the promise itself fails);
    the local disk is writable. *)
Definition storage_upload_rejects : Storage.env := {|
  Storage.service_key_set := false;
  Storage.list_buckets := Rejects "unused";
  Storage.create_bucket := Rejects "unused";
  Storage.upload := Rejects "fetch failed";
  Storage.public_url := fun p => p;
  Storage.cwd := "/srv/app";
  Storage.mkdir_result := Resolves tt;
  Storage.write_result := Resolves tt |}.

(** A storage service that replies with an error; the local disk is writable. *)
Definition storage_upload_error : Storage.env := {|
  Storage.service_key_set := true;
  Storage.list_buckets := Resolves (Storage.Data ["story-images"]);
  Storage.create_bucket := Rejects "unused";
  Storage.upload := Resolves (Storage.Error "Bucket not found");
  Storage.public_url := fun p => p;
  Storage.cwd := "/srv/app";
  Storage.mkdir_result := Resolves tt;
  Storage.write_result := Resolves tt |}.

Definition fs_ok : Extract.fs_env :=
  {| Extract.fs_cwd := "/srv/app"; Extract.fs_mkdir := Resolves tt;
     Extract.fs_write := Resolves tt |}.

Definition page_env_ok : Batch.page_env := {|
  Batch.generation := fun _ => Resolves (response_of [part (Some (Some "iVBORw0KGgo=")) None]);
  Batch.storage := storage_ok;
  Batch.page_clock := clk |}.

Definition pages_of (n : nat) : list Batch.page :=
  map (fun i => {| Batch.text := "Once upon a time";
                   Batch.prompt := "A child waves at a lighthouse";
                   Batch.pageIndex := Batch.QN i |}) (seq 0 n).

Definition body_of (ps : list Batch.page) (bs : Q) : Batch.body := {|
  Batch.bookId := "book-1";
  Batch.pages := ps;
  Batch.characterDescription := None;
  Batch.style := Prompt.cartoon;
  Batch.consistencyMode := true;
  Batch.fusionMode := false;
  Batch.batchSize := bs |}.

End Samples.

(* ------------------------------------------------------------------ *)
(** ** What the extraction loops pick from a response *)

Module Responses.
Import Extract.

(** The data of the first part whose [inlineData.data] is truthy: the part
    the [processImageResponse] helpers upload. *)
Fixpoint first_inline (ps : list gen_part) : option string :=
  match ps with
  | [] => None
  | p :: rest =>
      match inlineData p with
      | Some (Some d) => if negb (String.eqb d "") then Some d else first_inline rest
      | _ => first_inline rest
      end
  end.

(** The [inlineData.data] of the first part that has an [inlineData] field:
    the part the single-illustration route decides on. *)
Fixpoint first_inline_field (ps : list gen_part) : option (option string) :=
  match ps with
  | [] => None
  | p :: rest =>
      match inlineData p with
      | Some x => Some x
      | None => first_inline_field rest
      end
  end.

End Responses.

(* ------------------------------------------------------------------ *)
(** ** [POST] of the single-illustration route (app/api/illustrate/route.ts) *)

Module IllustrateRoute.

(** The parsed body, zod defaults applied. *)
Record body := {
  prompt : string;
  characterDescription : option string;
  previousImageUrl : option string;
  style : Prompt.style;
  consistencyMode : bool;
  editMode : bool
}.

(** [prompt: z.string().min(5)] (lengths counted on ASCII text). *)
Definition valid_body (b : body) : bool := (5 <=? String.length (prompt b))%nat.

Inductive reply :=
| ImageUrl (url : string)                 (* 200 { imageUrl } *)
| ErrorReply (status : Z) (msg : string).  (* { error } with a status *)

Definition POST (apiKey : option string) (b : body)
    (generation : string -> promise Extract.gen_response)
    (se : Storage.env) (clk : Extract.clock) : M reply :=
  if negb (Js.truthy apiKey) then ret (ErrorReply 500 "Missing GOOGLE_GENAI_API_KEY")
  else if negb (valid_body b) then ret (ErrorReply 400 "Invalid body")
  else
    try_catch
      (let enhancedPrompt :=
         Prompt.illustrate_prompt (prompt b) (characterDescription b) (previousImageUrl b)
           (style b) (consistencyMode b) (editMode b) in
       let* response := await (generation enhancedPrompt) in
       let* url := Extract.illustrate_extract se clk response in
       match url with
       | Some u => ret (ImageUrl u)
       | None => ret (ErrorReply 502 "No image returned from model")
       end)
      (fun msg => ret (ErrorReply 500 msg)).

End IllustrateRoute.

(* ------------------------------------------------------------------ *)
(** ** [POST] of the advanced route (app/api/advanced-illustrate/route.ts) *)

Module AdvancedRoute.

Record body := {
  prompt : string;
  characterDescription : option string;
  previousImageUrl : option string;
  style : Prompt.style;
  consistencyMode : bool;
  editMode : bool;
  fusionMode : bool;
  batchGenerate : bool;
  pageCount : Q
}.

(** [prompt: z.string().min(5)], [pageCount: z.number().min(1).max(5)]. *)
Definition valid_body (b : body) : bool :=
  (5 <=? String.length (prompt b))%nat && Qle_bool 1 (pageCount b) && Qle_bool (pageCount b) 5.

Inductive reply :=
| Urls (imageUrls : list string) (count : nat)       (* batchGenerated: true *)
| Single (imageUrl : string) (consistencyMode editMode fusionMode : bool)
    (style : Prompt.style)                             (* batchGenerated: false *)
| ErrorReply (status : Z) (msg : string).

(** The [for (let i = 0; i < pageCount; i++)] loop from iteration [i]; the
    model call, storage and clock of iteration [i] are those of [env i].
    [fuel] bounds the iterations ([pageCount <= 5] after validation). *)
Fixpoint batch_loop (env : nat -> Batch.page_env) (enhancedPrompt : string)
    (pageCount : Q) (fuel i : nat) : M (list string) :=
  match fuel with
  | O => ret []
  | S f =>
      if negb (Qle_bool pageCount (Batch.QN i)) then
        let pagePrompt := enhancedPrompt ++ " This is page "
          ++ Js.string_of_number (Batch.QN i + 1) ++ " of "
          ++ Js.string_of_number pageCount ++ ". " in
        let* response := await (Batch.generation (env i) pagePrompt) in
        let* imageUrl := Extract.advanced_processImageResponse (Batch.storage (env i))
                           (Batch.page_clock (env i)) response (Some (Batch.QN i)) in
        let* rest := batch_loop env enhancedPrompt pageCount f (S i) in
        ret (if Js.truthy imageUrl then
               (match imageUrl with Some u => u | None => "" end) :: rest
             else rest)
      else ret []
  end.

Definition POST (apiKey : option string) (b : body) (env : nat -> Batch.page_env)
    : M reply :=
  if negb (Js.truthy apiKey) then ret (ErrorReply 500 "Missing GOOGLE_GENAI_API_KEY")
  else if negb (valid_body b) then ret (ErrorReply 400 "Invalid body")
  else
    try_catch
      (let enhancedPrompt :=
         Prompt.advanced_prompt (prompt b) (characterDescription b) (previousImageUrl b)
           (style b) (consistencyMode b) (editMode b) (fusionMode b) in
       if batchGenerate b && negb (Qle_bool (pageCount b) 1) then
         let* imageUrls := batch_loop env enhancedPrompt (pageCount b) 5 0 in
         ret (Urls imageUrls (length imageUrls))
       else
         let* response := await (Batch.generation (env 0%nat) enhancedPrompt) in
         let* imageUrl := Extract.advanced_processImageResponse (Batch.storage (env 0%nat))
                            (Batch.page_clock (env 0%nat)) response None in
         if negb (Js.truthy imageUrl) then ret (ErrorReply 502 "No image returned from model")
         else ret (Single (match imageUrl with Some u => u | None => "" end)
                     (consistencyMode b) (editMode b) (fusionMode b) (style b)))
      (fun msg => ret (ErrorReply 500 msg)).

End AdvancedRoute.

(* ------------------------------------------------------------------ *)
(** ** The page illustrations of the story route (app/api/generate/route.ts) *)

Module GenerateRoute.

(** A page of the model's book: [{ text, activity?, prompt?, imageUrl? }]
    ([None] for an absent, [undefined] or [null] field). *)
Record page := {
  text : string;
  activity : option string;
  prompt : option string;
  imageUrl : option string
}.

(** What the outside world answers for one page: the file system, the clock,
    the model call and the fallback [fetch] of /api/illustrate, which settles
    with [response.ok] and the settled [response.json()]'s [imageUrl]. *)
Record page_env := {
  fs : Extract.fs_env;
  clock : Extract.clock;
  generation : string -> promise Extract.gen_response;
  fallback : promise (bool * promise (option string))
}.

(** The prompt [generateIllustration] sends. *)
Definition illustration_prompt (prompt : string) : string :=
  "Create a realistic, high-quality children's book illustration. "
  ++ "Style: photorealistic, warm and inviting, suitable for ages 3-12. "
  ++ Prompt.closing_clause ++ prompt.

(** The [async (page, index) => ...] callback of [data.pages.map]. *)
Definition illustrate_page (pe : page_env) (pg : page) : M page :=
  if Js.truthy (prompt pg) then
    let p := match prompt pg with Some s => s | None => "" end in
    let* imageUrl := Extract.generateIllustration (fs pe) (clock pe)
                       (generation pe (illustration_prompt p)) in
    let* imageUrl :=
      if Js.truthy imageUrl then ret imageUrl
      else
        try_catch
          (let* r := await (fallback pe) in
           let '(ok, json) := r in
           if ok then let* fallbackUrl := await json in ret fallbackUrl
           else ret imageUrl)
          (fun _ => ret imageUrl) in
    ret {| text := text pg; activity := activity pg; prompt := prompt pg;
           imageUrl := imageUrl |}
  else ret pg.

(** [await Promise.all(data.pages.map(...))] *)
Definition illustrate_pages (env : nat -> page_env) (pages : list page) : M (list page) :=
  Batch.all (Batch.mapi_from (fun i pg => illustrate_page (env i) pg) 0 pages).

End GenerateRoute.

(* ------------------------------------------------------------------ *)
(** ** The story wizard of the create page (appended to src/lib/supabase.ts) *)

Module CreatePage.

(** [nextStep], [prevStep], and [generate], which starts with
    [setCurrentStep(4)]. *)
Inductive action := Next | Prev | Generate.

Definition nextStep (currentStep : nat) : nat :=
  if (currentStep <? 4)%nat then S currentStep else currentStep.

Definition prevStep (currentStep : nat) : nat :=
  if (1 <? currentStep)%nat then currentStep - 1 else currentStep.

Definition step (currentStep : nat) (a : action) : nat :=
  match a with
  | Next => nextStep currentStep
  | Prev => prevStep currentStep
  | Generate => 4
  end.

(** [useState(1)], then the actions in order. *)
Definition run (actions : list action) : nat := fold_left step actions 1%nat.

(** The local library update after a story is generated: the stored list
    ([None] when the key is missing), the new book in front, the first 10
    kept. *)
Definition save_book {A} (stored : option (list A)) (book : A) : list A :=
  firstn 10 (book :: match stored with Some l => l | None => [] end).

(** Several stories generated one after the other, each update reading the
    list the previous one stored. *)
Definition save_books {A} (stored : list A) (books : list A) : list A :=
  fold_left (fun l b => save_book (Some l) b) books stored.

End CreatePage.

(* ------------------------------------------------------------------ *)
(** ** Auxiliary predicates for the properties below *)

Module Digits.

(** A decimal digit character. *)
Definition is_digit (c : ascii) : bool :=
  (48 <=? nat_of_ascii c)%nat && (nat_of_ascii c <=? 57)%nat.

Fixpoint all_digits (s : string) : bool :=
  match s with
  | EmptyString => true
  | String c rest => is_digit c && all_digits rest
  end.

End Digits.

Module GenerateInv.
Import Extract.

(** What a run of the [generateIllustration] loop leaves behind: effects only
    on the images directory and on the one file [filename] there; a URL
    result has written exactly one file, any other outcome none. *)
Definition gen_inv (fe : fs_env) (filename : string) (m : M (option string)) : Prop :=
  Forall (fun e => e = Mkdir (Path.join [fs_cwd fe; "public"; "images"]) \/
                   exists b, e = WriteFile (Path.join [fs_cwd fe; "public"; "images"; filename]) b)
    (snd m) /\
  match fst m with
  | Ok (Some u) => u = "/images/" ++ filename /\ length (written (snd m)) = 1%nat
  | Ok None => written (snd m) = []
  | Exn _ => written (snd m) = []
  end.

End GenerateInv.

(* ------------------------------------------------------------------ *)
(** ** More sample inputs *)

Module MoreSamples.

Definition image_response : Extract.gen_response :=
  Samples.response_of [Samples.part (Some (Some "iVBORw0KGgo=")) None].

Definition illustrate_body : IllustrateRoute.body := {|
  IllustrateRoute.prompt := "A lighthouse at dusk";
  IllustrateRoute.characterDescription := None;
  IllustrateRoute.previousImageUrl := None;
  IllustrateRoute.style := Prompt.realistic;
  IllustrateRoute.consistencyMode := false;
  IllustrateRoute.editMode := false |}.

Definition advanced_body (batchGenerate : bool) (pageCount : Q) : AdvancedRoute.body := {|
  AdvancedRoute.prompt := "A lighthouse at dusk";
  AdvancedRoute.characterDescription := None;
  AdvancedRoute.previousImageUrl := None;
  AdvancedRoute.style := Prompt.realistic;
  AdvancedRoute.consistencyMode := false;
  AdvancedRoute.editMode := false;
  AdvancedRoute.fusionMode := false;
  AdvancedRoute.batchGenerate := batchGenerate;
  AdvancedRoute.pageCount := pageCount |}.

(** A page whose model call rejects. *)
Definition page_env_rejects : Batch.page_env := {|
  Batch.generation := fun _ => Rejects "Quota exceeded";
  Batch.storage := Samples.storage_ok;
  Batch.page_clock := Samples.clk |}.

End MoreSamples.

(* ------------------------------------------------------------------ *)
(** ** The order the retention sweep sorts by *)

Module SweepOrder.
Import Cleanup.


(** The sorted entries of a listing are the eligible files with their
    timestamps. *)
Definition entries (files : list string) : list (string * Z) :=
  sort_desc (map (fun f => (f, timestamp f)) (filter eligible files)).

End SweepOrder.

(* ================================================================== *)
(** * Properties *)

(** ** Image read endpoint *)

(** C7 (code defect): the traversal guard compares the joined path with the
    images directory by a plain string prefix, so a sibling directory whose
    name extends "images" passes it: the request for the segments
    [".."; "images_private"; "secret.png"] is served from
    [/srv/app/public/images_private/secret.png], outside [public/images]. *)
Theorem image_proxy_serves_sibling_directory :
  let imagePath := Path.join ["/srv/app"; "public"; "images"; ".."; "images_private"; "secret.png"] in
  imagePath = "/srv/app/public/images_private/secret.png" /\
  ImageProxy.inside (Path.join ["/srv/app"; "public"; "images"]) imagePath = false /\
  ImageProxy.GET "/srv/app" [".."; "images_private"; "secret.png"]
    (fun p => Resolves (FromBase64 p))
  = ImageProxy.Served "image/png" (FromBase64 "/srv/app/public/images_private/secret.png")
      "public, max-age=31536000, immutable".
Proof. vm_compute. repeat split. Qed.

(** ** Batch orchestrator on an empty page list *)

(** C10: a valid batch request with no pages is accepted, performs no
    generation (no effect, whatever the outside world would answer) and
    replies with empty lists and the summary
    [{totalPages: 0, successful: 0, failed: 0, successRate: "NaN%"}]. *)
Theorem batch_empty_pages_nan_rate :
  forall apiKey b env now_ms,
    Js.truthy apiKey = true -> Batch.valid_body b = true -> Batch.pages b = [] ->
    Batch.POST apiKey b env now_ms =
      (Ok (Batch.BatchOk (Batch.bookId b) [] []
             {| Batch.totalPages := 0; Batch.successful := 0; Batch.failed := 0;
                Batch.successRate := "NaN%" |}
             0 (Batch.batchSize b) now_ms), []).
Proof.
  intros apiKey b env now_ms Hkey Hvalid Hpages.
  unfold Batch.POST. rewrite Hkey, Hvalid. simpl.
  unfold Batch.total_batches. rewrite Hpages.
  destruct b as [bid ps cd st cm fm [bn bd]]; simpl in *. subst ps.
  reflexivity.
Qed.

Lemma batch_empty_pages_nan_rate_witness :
  Batch.POST (Some "key") (Samples.body_of [] 3) (fun _ => Samples.page_env_ok) 0 =
    (Ok (Batch.BatchOk "book-1" [] []
           {| Batch.totalPages := 0; Batch.successful := 0; Batch.failed := 0;
              Batch.successRate := "NaN%" |} 0 3 0), []).
Proof.
  apply (batch_empty_pages_nan_rate (Some "key") (Samples.body_of [] 3)
           (fun _ => Samples.page_env_ok) 0); reflexivity.
Defined.

(** ** Prompt composers *)

Lemma append_nil_r (s : string) : s ++ "" = s.
Proof. induction s as [|c s IH]; simpl; [reflexivity | now rewrite IH]. Qed.

Lemma append_assoc (a b c : string) : a ++ (b ++ c) = (a ++ b) ++ c.
Proof. induction a as [|x a IH]; simpl; [reflexivity | now rewrite IH]. Qed.

Lemma prefix_refl (s : string) : String.prefix s s = true.
Proof.
  induction s as [|c s IH]; simpl; [reflexivity|].
  destruct (ascii_dec c c) as [_|Hne]; [exact IH | now destruct Hne].
Qed.

Lemma render_cons (a : string) (l : list string) :
  Prompt.render (a :: l) = a ++ Prompt.render l.
Proof.
  unfold Prompt.render. destruct l; simpl.
  - now rewrite append_nil_r.
  - reflexivity.
Qed.

Lemma render_occurs (x : string) (l : list string) :
  In x l -> Prompt.occurs_in x (Prompt.render l).
Proof.
  induction l as [|a l IH]; intros Hin; [destruct Hin|].
  rewrite render_cons. destruct Hin as [<- | Hin].
  - exists "", (Prompt.render l). reflexivity.
  - destruct (IH Hin) as (pre & post & ->).
    exists (a ++ pre), post. now rewrite !append_assoc.
Qed.

Lemma occurs_in_description (d : string) (l : list string) :
  In (Prompt.description_clause d) l -> Prompt.occurs_in d (Prompt.render l).
Proof.
  intros Hin. destruct (render_occurs _ _ Hin) as (pre & post & ->).
  unfold Prompt.description_clause.
  exists (pre ++ "Character consistency: Maintain the same character appearance as described: "),
         (". " ++ post).
  now rewrite !append_assoc.
Qed.

Lemma not_in_by_prefix (g : string) (l : list string) :
  forallb (fun p => negb (String.prefix g p)) l = true -> ~ In g l.
Proof.
  intros H Hin. rewrite forallb_forall in H. specialize (H g Hin).
  now rewrite prefix_refl in H.
Qed.

Lemma truthy_some (d : string) : d <> "" -> Js.truthy (Some d) = true.
Proof. intros Hd. unfold Js.truthy. apply String.eqb_neq in Hd. now rewrite Hd. Qed.

(** C6 (as amended): for a non-empty character description, the
    single-illustration and batch composers append the clause embedding the
    literal description, whatever [consistencyMode] is, and never the generic
    consistency clause; the advanced composer appends the description clause
    exactly when [consistencyMode] is set, and never the generic clause.
    In the first two cases the description occurs in the composed prompt. *)
Theorem prompt_description_clause :
  forall (prompt d : string) (prev : option string) (st : Prompt.style)
         (cm em fm : bool) (pageIndex : Q),
    d <> "" ->
    (In (Prompt.description_clause d) (Prompt.illustrate_pieces prompt (Some d) prev st cm em)
     /\ ~ In Prompt.generic_clause (Prompt.illustrate_pieces prompt (Some d) prev st cm em)
     /\ Prompt.occurs_in d (Prompt.illustrate_prompt prompt (Some d) prev st cm em))
    /\ (In (Prompt.description_clause d) (Prompt.batch_pieces prompt pageIndex (Some d) st cm fm)
     /\ ~ In Prompt.generic_clause (Prompt.batch_pieces prompt pageIndex (Some d) st cm fm)
     /\ Prompt.occurs_in d (Prompt.batch_prompt prompt pageIndex (Some d) st cm fm))
    /\ ((In (Prompt.description_clause d)
           (Prompt.advanced_pieces prompt (Some d) prev st cm em fm) <-> cm = true)
     /\ ~ In Prompt.generic_clause (Prompt.advanced_pieces prompt (Some d) prev st cm em fm)).
Proof.
  intros prompt d prev st cm em fm pageIndex Hd.
  pose proof (truthy_some d Hd) as Ht.
  assert (Hi : In (Prompt.description_clause d)
                 (Prompt.illustrate_pieces prompt (Some d) prev st cm em)).
  { unfold Prompt.illustrate_pieces. rewrite Ht. simpl. tauto. }
  assert (Hb : In (Prompt.description_clause d)
                 (Prompt.batch_pieces prompt pageIndex (Some d) st cm fm)).
  { unfold Prompt.batch_pieces. rewrite Ht. simpl. tauto. }
  split; [|split].
  - split; [exact Hi|split; [|now apply occurs_in_description]].
    apply not_in_by_prefix. unfold Prompt.illustrate_pieces. rewrite Ht.
    destruct st, em, (Js.truthy prev); reflexivity.
  - split; [exact Hb|split; [|now apply occurs_in_description]].
    apply not_in_by_prefix. unfold Prompt.batch_pieces. rewrite Ht.
    destruct st, (negb (Qle_bool pageIndex 0)), fm; reflexivity.
  - split.
    + destruct cm; split; intros H; try reflexivity; try discriminate.
      * unfold Prompt.advanced_pieces. rewrite Ht. simpl. tauto.
      * exfalso. revert H. apply not_in_by_prefix. unfold Prompt.advanced_pieces.
        rewrite Ht. destruct st, em, (Js.truthy prev), fm; reflexivity.
    + apply not_in_by_prefix. unfold Prompt.advanced_pieces. rewrite Ht.
      destruct st, cm, em, (Js.truthy prev), fm; reflexivity.
Qed.

Lemma prompt_description_clause_witness :
  "a small red fox named Pip" <> "" /\
  Prompt.occurs_in "a small red fox named Pip"
    (Prompt.illustrate_prompt "A fox sits by a lighthouse" (Some "a small red fox named Pip")
       None Prompt.cartoon false false).
Proof.
  split; [discriminate|].
  refine (proj2 (proj2 (proj1 (prompt_description_clause "A fox sits by a lighthouse"
           "a small red fox named Pip" None Prompt.cartoon false false false 0 _)))).
  discriminate.
Defined.

(** C6 fails as stated: with [consistencyMode] off, the advanced composer
    leaves the character description out of the prompt. *)
Lemma prompt_description_dropped_by_advanced :
  Js.includes "a small red fox named Pip"
    (Prompt.advanced_prompt "A fox sits by a lighthouse" (Some "a small red fox named Pip")
       None Prompt.cartoon false false false) = false.
Proof. vm_compute. reflexivity. Qed.

(** ** Retention sweep *)

Module SweepFacts.
Import Cleanup SweepOrder.

Lemma insert_perm x l : Permutation (insert x l) (x :: l).
Proof.
  induction l as [|y l IH]; simpl; [reflexivity|].
  destruct (snd y <? snd x)%Z; [reflexivity|].
  rewrite IH. apply perm_swap.
Qed.

Lemma sort_desc_perm l : Permutation (sort_desc l) l.
Proof.
  unfold sort_desc.
  assert (H : forall acc, Permutation (fold_left (fun acc x => insert x acc) l acc) (l ++ acc)).
  { induction l as [|x l IH]; intros acc; simpl; [reflexivity|].
    rewrite IH, insert_perm. symmetry. apply Permutation_middle. }
  rewrite H, app_nil_r. reflexivity.
Qed.









Lemma in_skipn_in {A} n (l : list A) x : In x (skipn n l) -> In x l.
Proof.
  revert l; induction n as [|n IH]; intros [|y l] H; simpl in *; auto.
Qed.

Lemma unlink_in fails f n dir :
  In f (unlink fails n dir) <-> In f dir /\ (f = n -> fails n = true).
Proof.
  unfold unlink. destruct (existsb (String.eqb n) dir) eqn:E; cbn [andb].
  - destruct (fails n) eqn:Ef; cbn [negb].
    + split; [intros H; split; [exact H | intros _; reflexivity] | tauto].
    + rewrite filter_In. split; intros [H1 H2]; split; auto.
      * intros ->. now rewrite String.eqb_refl in H2.
      * apply negb_true_iff, String.eqb_neq. intros ->. discriminate (H2 eq_refl).
  - split; [|tauto]. intros H. split; [exact H|]. intros ->.
    assert (existsb (String.eqb n) dir = true) by (apply existsb_exists; exists n;
      split; [exact H | apply String.eqb_refl]).
    congruence.
Qed.

Lemma unlink_all_in fails f names dir :
  In f (unlink_all fails names dir) <-> In f dir /\ (In f names -> fails f = true).
Proof.
  revert dir; induction names as [|n names IH]; intros dir; simpl.
  - tauto.
  - rewrite IH, unlink_in. split.
    + intros [[H1 H2] H3]. split; [exact H1|]. intros [<-|H]; auto.
    + intros [H1 H2]. split; [split; [exact H1|] |]; intros H; [subst|]; auto.
Qed.

Lemma entries_perm files :
  Permutation (entries files) (map (fun f => (f, timestamp f)) (filter eligible files)).
Proof. apply sort_desc_perm. Qed.

Lemma entries_shape files q :
  In q (entries files) -> snd q = timestamp (fst q) /\ eligible (fst q) = true /\ In (fst q) files.
Proof.
  intros Hq. apply (Permutation_in _ (entries_perm files)), in_map_iff in Hq.
  destruct Hq as (f & <- & Hf). apply filter_In in Hf as [Hf He]. simpl. auto.
Qed.

Lemma entries_length files : length (entries files) = length (filter eligible files).
Proof. rewrite (Permutation_length (entries_perm files)). apply length_map. Qed.

Lemma POST_some fails files :
  POST fails (Some files) =
    (Counts (length (skipn retention (entries files))) (length (firstn retention (entries files))),
     Some (unlink_all fails (map fst (skipn retention (entries files))) files)).
Proof. reflexivity. Qed.

End SweepFacts.

(** C9: the sweep only considers files named [illustration_*.png]: whichever
    unlinks fail, any other file of the directory is still there afterwards,
    the two counts add up to the number of eligible files, and the names the
    batch and advanced pipelines give their images are never eligible. *)
Theorem sweep_ignores_other_files :
  (forall unlink_fails files,
     match Cleanup.POST unlink_fails (Some files) with
     | (Cleanup.Counts deleted kept, Some files') =>
         (deleted + kept)%nat = length (filter Cleanup.eligible files) /\
         forall f, Cleanup.eligible f = false -> (In f files' <-> In f files)
     | _ => False
     end) /\
  (forall s, Cleanup.eligible ("batch_illustration_" ++ s) = false /\
             Cleanup.eligible ("advanced_illustration_" ++ s) = false).
Proof.
  split; [|intros s; split; reflexivity].
  intros fails files. rewrite SweepFacts.POST_some. split.
  - rewrite <- SweepFacts.entries_length.
    rewrite <- (firstn_skipn Cleanup.retention (SweepOrder.entries files)) at 3.
    rewrite length_app. lia.
  - intros f Hf. rewrite SweepFacts.unlink_all_in. split; [tauto|].
    intros Hin. split; [exact Hin|]. intros Hn. exfalso.
    apply in_map_iff in Hn as (q & <- & Hq).
    apply SweepFacts.in_skipn_in, SweepFacts.entries_shape in Hq as (_ & He & _). congruence.
Qed.




(* ------------------------------------------------------------------ *)
(** ** The persistence sink *)

(** C3: [uploadImageToStorage] never throws. It yields [null] exactly when
    the bucket setup rejects, when the upload call itself rejects, or when
    the upload replies an error and the local fallback fails. Only a replied
    upload error reaches the local fallback, which (with a writable disk)
    writes the bytes under public/images and returns "/images/<filename>":
    any local effect means the upload replied an error, and an upload that
    returns data yields its public URL with no local effect. *)
Theorem upload_never_throws :
  forall e buf filename bucket,
    let res := Storage.uploadImageToStorage e buf filename bucket in
    (exists v, fst res = Ok v) /\
    (fst res = Ok None <->
       Storage.setup_rejects e bucket = true \/
       Storage.is_rejected (Storage.upload e) = true \/
       (Storage.upload_replied_error e = true /\
        (Storage.is_rejected (Storage.mkdir_result e)
         || Storage.is_rejected (Storage.write_result e)) = true)) /\
    (Storage.setup_rejects e bucket = false ->
     Storage.upload_replied_error e = true ->
     Storage.mkdir_result e = Resolves tt -> Storage.write_result e = Resolves tt ->
     fst res = Ok (Some ("/images/" ++ filename)) /\
     In (WriteFile (Path.join [Storage.cwd e; "public"; "images"; filename]) buf) (snd res)) /\
    (snd res <> [] -> Storage.upload_replied_error e = true) /\
    (forall path, Storage.setup_rejects e bucket = false ->
     Storage.upload e = Resolves (Storage.Data path) ->
     res = (Ok (Some (Storage.public_url e path)), [])).
Proof.
  intros [key lb cb up pu cwd mk wr] buf filename bucket res. subst res.
  unfold Storage.uploadImageToStorage, Storage.upload_body, Storage.ensure_bucket,
    Storage.local_fallback, Storage.setup_rejects, Storage.is_rejected,
    Storage.upload_replied_error; cbn -[Path.join].
  destruct key, lb as [[bs|m]|m], cb as [[[]|m']|m'], up as [[p|m1]|m1],
    mk as [[]|m2], wr as [[]|m3]; cbn -[Path.join];
    try destruct (existsb (String.eqb bucket) bs); cbn -[Path.join];
    (split; [eexists; reflexivity|]);
    (split; [split; intros H; intuition (try discriminate; auto)|]);
    (split; [intros H1 H2 H3 H4; try discriminate; (split; [reflexivity | simpl; tauto])|]);
    (split; [intros H; solve [reflexivity | now destruct H]|]);
    intros path H1 H2; try discriminate; inversion H2; subst; reflexivity.
Qed.

Lemma upload_never_throws_witness :
  let res := Storage.uploadImageToStorage Samples.storage_upload_error
               (FromBase64 "iVBORw0KGgo=") "illustration_1_a.png" Storage.default_bucket in
  fst res = Ok (Some "/images/illustration_1_a.png") /\
  In (WriteFile (Path.join ["/srv/app"; "public"; "images"; "illustration_1_a.png"])
                (FromBase64 "iVBORw0KGgo=")) (snd res).
Proof.
  exact (proj1 (proj2 (proj2 (upload_never_throws Samples.storage_upload_error
           (FromBase64 "iVBORw0KGgo=") "illustration_1_a.png" Storage.default_bucket)))
         eq_refl eq_refl eq_refl eq_refl).
Defined.

(** C3 (counterexample): when the upload call rejects (a network failure),
    the catch block returns [null] although the local disk is writable: the
    local fallback is not attempted and nothing is written. *)
Lemma upload_rejection_skips_fallback :
  Storage.uploadImageToStorage Samples.storage_upload_rejects
    (FromBase64 "iVBORw0KGgo=") "illustration_1_a.png" Storage.default_bucket
  = (Ok None, []).
Proof. vm_compute. reflexivity. Qed.

(* ------------------------------------------------------------------ *)
(** ** The response extractors *)

Lemma process_parts_no_image se fn ps :
  existsb Extract.inline_image ps = false ->
  Extract.process_parts se fn ps = (Ok None, []).
Proof.
  induction ps as [|p ps IH]; simpl; [reflexivity|].
  unfold Extract.inline_image. intros H. apply orb_false_iff in H as [Hp Hps].
  destruct (Extract.inlineData p) as [[d|]|]; try rewrite Hp; auto.
Qed.

Lemma illustrate_parts_no_image se fn ps :
  existsb Extract.inline_image ps = false ->
  Extract.illustrate_parts se fn ps =
    (if existsb Extract.has_inline_field ps then Exn "No image data received" else Ok None, []).
Proof.
  induction ps as [|p ps IH]; simpl; [reflexivity|].
  unfold Extract.inline_image, Extract.has_inline_field. intros H.
  apply orb_false_iff in H as [Hp Hps].
  destruct (Extract.inlineData p) as [[d|]|]; simpl; auto.
  unfold Js.truthy. rewrite Hp. reflexivity.
Qed.

(** C4: for a response none of whose parts carries non-empty inline image
    data (no candidate, no parts, parts without [inlineData], or with an
    absent or empty [inlineData.data]), the [processImageResponse] helpers of
    the batch and advanced routes return [null] without an effect; the
    single-illustration route's extractor returns [null] only when no part
    has an [inlineData] field, and otherwise throws
    "No image data received". *)
Theorem extractors_without_image :
  forall se clk r pageIndex advIndex,
    existsb Extract.inline_image (Extract.response_parts r) = false ->
    Extract.batch_processImageResponse se clk r pageIndex = (Ok None, []) /\
    Extract.advanced_processImageResponse se clk r advIndex = (Ok None, []) /\
    Extract.illustrate_extract se clk r =
      (if existsb Extract.has_inline_field (Extract.response_parts r)
       then Exn "No image data received" else Ok None, []).
Proof.
  intros se clk r pageIndex advIndex.
  unfold Extract.batch_processImageResponse, Extract.advanced_processImageResponse,
    Extract.process_response, Extract.illustrate_extract, Extract.response_parts.
  destruct (Extract.first_parts r) as [ps|]; intros H.
  - rewrite !process_parts_no_image, illustrate_parts_no_image by exact H.
    repeat split.
  - repeat split.
Qed.

Lemma extractors_without_image_witness :
  let r := Samples.response_of [Samples.part None (Some "Here is the picture");
                                Samples.part (Some None) None;
                                Samples.part (Some (Some "")) None] in
  existsb Extract.inline_image (Extract.response_parts r) = false /\
  Extract.batch_processImageResponse Samples.storage_ok Samples.clk r 0 = (Ok None, []) /\
  Extract.advanced_processImageResponse Samples.storage_ok Samples.clk r None = (Ok None, []) /\
  Extract.illustrate_extract Samples.storage_ok Samples.clk r =
    (if existsb Extract.has_inline_field (Extract.response_parts r)
     then Exn "No image data received" else Ok None, []).
Proof.
  intros r.
  assert (H : existsb Extract.inline_image (Extract.response_parts r) = false)
    by reflexivity.
  split; [exact H|].
  exact (extractors_without_image Samples.storage_ok Samples.clk r 0 None H).
Defined.

(** C4 (counterexample): the single-illustration route's extractor throws
    on a part whose [inlineData.data] is present but empty. *)
Lemma illustrate_empty_inline_data_throws :
  Extract.illustrate_extract Samples.storage_ok Samples.clk
    (Samples.response_of [Samples.part (Some (Some "")) None])
  = (Exn "No image data received", []).
Proof. vm_compute. reflexivity. Qed.

Lemma generate_parts_fs_ok fe fn ps :
  Extract.fs_mkdir fe = Resolves tt -> Extract.fs_write fe = Resolves tt ->
  fst (Extract.generate_parts fe fn ps)
    = Ok (option_map (fun _ => "/images/" ++ fn) (Extract.first_image ps)) /\
  Extract.written (snd (Extract.generate_parts fe fn ps))
    = match Extract.first_image ps with Some b => [FromBase64 b] | None => [] end.
Proof.
  intros Hm Hw. induction ps as [|p ps IH]; [split; reflexivity|].
  cbn -[Path.join Js.at_index Js.split Js.includes].
  unfold Extract.mkdir_images, Extract.write_image.
  rewrite Hm, Hw. unfold Extract.part_image, Extract.data_url_image.
  destruct (Extract.generate_parts fe fn ps) as [r w] eqn:E. simpl in IH.
  destruct IH as [IHr IHw].
  destruct (Extract.inlineData p) as [[d|]|];
    [destruct (negb (String.eqb d ""))| |]; cbn -[Path.join Js.at_index Js.split Js.includes];
    try (split; reflexivity);
    destruct (Extract.text p) as [t|]; cbn -[Path.join Js.at_index Js.split Js.includes];
    try (destruct (negb (String.eqb t "") && Js.includes "data:image" t));
    cbn -[Path.join Js.at_index Js.split Js.includes];
    try (destruct (Js.at_index (Js.split "," t) 1) as [b|]); cbn -[Path.join Js.at_index Js.split Js.includes];
    try (destruct (negb (String.eqb b ""))); cbn -[Path.join Js.at_index Js.split Js.includes];
    try (split; reflexivity);
    unfold Extract.written in *; rewrite ?flat_map_app; cbn -[Path.join Js.at_index Js.split Js.includes];
    split; assumption.
Qed.

(** C5: with a working local disk, [generateIllustration] returns the image
    of the first part that matches, where each part is tried with its
    inline data first and then with the data URL in its own text, before
    the next part is looked at; that image, and no other, is written. *)
Theorem generate_first_matching_part :
  forall fe clk r ps,
    Extract.fs_mkdir fe = Resolves tt -> Extract.fs_write fe = Resolves tt ->
    Extract.first_parts r = Some ps ->
    let res := Extract.generateIllustration fe clk (Resolves r) in
    fst res = Ok (option_map (fun _ => "/images/" ++ Extract.illustrate_filename clk)
                             (Extract.first_image ps)) /\
    Extract.written (snd res)
      = match Extract.first_image ps with Some b => [FromBase64 b] | None => [] end.
Proof.
  intros fe clk r ps Hm Hw Hr res. subst res.
  unfold Extract.generateIllustration. simpl. rewrite Hr.
  destruct (generate_parts_fs_ok fe (Extract.illustrate_filename clk) ps Hm Hw) as [H1 H2].
  destruct (Extract.generate_parts fe (Extract.illustrate_filename clk) ps) as [x w].
  simpl in H1, H2 |- *. subst x. simpl. split; [reflexivity | exact H2].
Qed.

Lemma generate_first_matching_part_witness :
  let ps := [Samples.part None (Some "Sure! data:image/png;base64,QUJD");
             Samples.part (Some (Some "WFla")) None] in
  Extract.fs_mkdir Samples.fs_ok = Resolves tt /\
  Extract.fs_write Samples.fs_ok = Resolves tt /\
  Extract.first_parts (Samples.response_of ps) = Some ps /\
  Extract.written (snd (Extract.generateIllustration Samples.fs_ok Samples.clk
                          (Resolves (Samples.response_of ps))))
    = [FromBase64 "QUJD"].
Proof.
  intros ps.
  assert (Hm : Extract.fs_mkdir Samples.fs_ok = Resolves tt) by reflexivity.
  assert (Hw : Extract.fs_write Samples.fs_ok = Resolves tt) by reflexivity.
  assert (Hr : Extract.first_parts (Samples.response_of ps) = Some ps) by reflexivity.
  split; [exact Hm|]. split; [exact Hw|]. split; [exact Hr|].
  exact (proj2 (generate_first_matching_part Samples.fs_ok Samples.clk
                  (Samples.response_of ps) ps Hm Hw Hr)).
Defined.

(** C5 (counterexample): the first part's text holds a data URL and the
    second part carries inline data; [generateIllustration] writes the
    data-URL image of the first part, not the inline image of the second. *)
Lemma generate_data_url_before_later_inline :
  Extract.written (snd (Extract.generateIllustration Samples.fs_ok Samples.clk
     (Resolves (Samples.response_of
        [Samples.part None (Some "Sure! data:image/png;base64,QUJD");
         Samples.part (Some (Some "WFla")) None]))))
  = [FromBase64 "QUJD"].
Proof. vm_compute. reflexivity. Qed.

(* ------------------------------------------------------------------ *)
(** ** Facts about the batch loop *)

Module BatchFacts.
Import Batch BatchPlan.

Lemma fst_bind_ok {A B} (m : M A) (f : A -> M B) a :
  fst m = Ok a -> fst (bind m f) = fst (f a).
Proof.
  destruct m as [[x|e] w]; simpl; intros H; inversion H; subst.
  destruct (f a); reflexivity.
Qed.

Lemma fst_try_catch_ok {A} (m : M A) h a : fst m = Ok a -> fst (try_catch m h) = Ok a.
Proof. destruct m as [[x|e] w]; simpl; intros H; inversion H; reflexivity. Qed.

(** Every invocation resolves, to a result carrying the index it was given. *)
Lemma page_resolves pe pg q cd st cm fm :
  exists r, fst (generatePageIllustration pe pg q cd st cm fm) = Ok r /\
            result_pageIndex r = q.
Proof.
  unfold generatePageIllustration.
  destruct (generation pe _) as [resp|m]; cbn -[Extract.batch_processImageResponse].
  - destruct (Extract.batch_processImageResponse _ _ resp q) as [[u|m] w]; cbn.
    + destruct (negb (Js.truthy u)); cbn; eauto.
    + eauto.
  - eauto.
Qed.

Lemma all_ok {A} (d : A) (xs : list (M A)) :
  Forall (fun x => exists a, fst x = Ok a) xs ->
  fst (all xs) = Ok (map (value_or d) xs).
Proof.
  induction xs as [|x xs IH]; intros HF; [reflexivity|].
  inversion HF as [|? ? [a Ha] HF']; subst.
  destruct x as [[a'|e] w]; simpl in Ha; inversion Ha; subst.
  simpl. specialize (IH HF'). destruct (all xs) as [r w'].
  simpl in IH. subst r. reflexivity.
Qed.

Lemma map_mapi_from {A B C} (h : B -> C) (f : nat -> A -> B) m l :
  map h (mapi_from f m l) = mapi_from (fun i x => h (f i x)) m l.
Proof. revert m; induction l as [|x l IH]; intros m; simpl; [|rewrite IH]; reflexivity. Qed.

Lemma batch_invocations_plan env b k :
  batch_invocations env b k =
  map (fun t => generatePageIllustration (env (position t)) (snd (fst t)) (global_index t)
                  (characterDescription b) (style b) (consistencyMode b) (fusionMode b))
      (chunk_plan b k).
Proof. unfold batch_invocations, chunk_plan. rewrite map_mapi_from. reflexivity. Qed.

(** The loop never throws: it yields the outcome of every planned invocation. *)
Lemma run_ok env b ks :
  fst (run_batches env b ks) = Ok (map (outcome env b) (flat_map (chunk_plan b) ks)).
Proof.
  induction ks as [|k ks IH]; [reflexivity|]. simpl run_batches.
  rewrite (fst_bind_ok _ _ (map (value_or (failure 0 "")) (batch_invocations env b k))).
  - rewrite (fst_bind_ok _ _ _ IH). simpl. rewrite map_app. f_equal. f_equal.
    rewrite batch_invocations_plan, map_map. apply map_ext.
    intros [[j pg] q]. reflexivity.
  - apply all_ok. rewrite batch_invocations_plan. apply Forall_forall.
    intros x Hx. apply in_map_iff in Hx as (t & <- & _).
    edestruct page_resolves as (r & Hr & _). eexists. exact Hr.
Qed.

Lemma outcome_index env b t : result_pageIndex (outcome env b t) = global_index t.
Proof.
  destruct t as [[j pg] q]. unfold outcome, value_or.
  edestruct page_resolves as (r & Hr & Hq). rewrite Hr. exact Hq.
Qed.

Lemma QN_nonneg n : 0 <= QN n.
Proof. unfold QN, Qle; simpl; lia. Qed.

Lemma QN_S n : QN (S n) = QN n + 1.
Proof. unfold QN. rewrite Nat2Z.inj_succ. unfold Z.succ. rewrite inject_Z_plus. reflexivity. Qed.

Lemma Qfloor_QN n : Qfloor (QN n) = Z.of_nat n.
Proof. apply Qfloor_Z. Qed.

Lemma Qfloor_nonneg q : 0 <= q -> (0 <= Qfloor q)%Z.
Proof. intros H. apply (Qfloor_resp_le 0 q) in H. exact H. Qed.

Lemma rel_index_nonneg q n :
  0 <= q -> Js.rel_index q n = Nat.min (Z.to_nat (Qfloor q)) n.
Proof.
  intros H. unfold Js.rel_index, Js.trunc.
  apply Qle_bool_iff in H as Hb. rewrite Hb.
  apply Qle_bool_iff in Hb. apply Qfloor_nonneg in Hb.
  destruct (Z.ltb_spec (Qfloor q) 0); [lia|reflexivity].
Qed.

Section Tiling.
Variable b : body.
Hypothesis Hpos : 0 < batchSize b.

Let N := length (pages b).

Lemma B_nonneg : 0 <= batchSize b.
Proof. apply Qlt_le_weak, Hpos. Qed.

Lemma cut_eq k : cut b k = Nat.min (Z.to_nat (Qfloor (QN k * batchSize b))) N.
Proof.
  unfold cut, start_index. apply rel_index_nonneg.
  apply Qmult_le_0_compat; [apply QN_nonneg|apply B_nonneg].
Qed.

Lemma cut_le_N k : (cut b k <= N)%nat.
Proof. rewrite cut_eq. lia. Qed.

Lemma cut_0 : cut b 0 = 0%nat.
Proof.
  rewrite cut_eq. rewrite (Qfloor_comp (QN 0 * batchSize b) 0); [reflexivity|].
  unfold QN. simpl. ring.
Qed.

Lemma floor_step k :
  (Qfloor (QN k * batchSize b) <= Qfloor (QN (S k) * batchSize b))%Z.
Proof.
  apply Qfloor_resp_le. apply Qmult_le_compat_r; [|apply B_nonneg].
  rewrite QN_S. rewrite <- (Qplus_0_r (QN k)) at 1. apply Qplus_le_r. discriminate.
Qed.

Lemma cut_mono k : (cut b k <= cut b (S k))%nat.
Proof. rewrite !cut_eq. pose proof (floor_step k). lia. Qed.

Lemma cut_end k : Js.rel_index (end_index b k) N = cut b (S k).
Proof.
  unfold end_index, Js.min. fold N.
  assert (HS : QN (S k) * batchSize b == start_index b k + batchSize b)
    by (unfold start_index; rewrite QN_S; ring).
  destruct (Qle_bool (start_index b k + batchSize b) (QN N)) eqn:E.
  - rewrite cut_eq, rel_index_nonneg.
    + rewrite (Qfloor_comp _ _ HS). reflexivity.
    + rewrite <- HS. apply Qmult_le_0_compat; [apply QN_nonneg|apply B_nonneg].
  - rewrite rel_index_nonneg by apply QN_nonneg. rewrite Qfloor_QN, Nat2Z.id.
    rewrite cut_eq. assert (Hlt : QN N < QN (S k) * batchSize b).
    { rewrite HS. apply Qnot_le_lt. intros Hle. apply Qle_bool_iff in Hle. congruence. }
    apply Qlt_le_weak, Qfloor_resp_le in Hlt. rewrite Qfloor_QN in Hlt. lia.
Qed.

Lemma cut_last : cut b (Z.to_nat (total_batches b)) = N.
Proof.
  unfold total_batches. fold N.
  set (c := Qceiling (QN N / batchSize b)).
  assert (Hc : (0 <= c)%Z).
  { apply (Qceiling_resp_le 0). apply Qle_shift_div_l; [exact Hpos|].
    rewrite Qmult_0_l. apply QN_nonneg. }
  rewrite cut_eq. assert (HQ : QN (Z.to_nat c) = inject_Z c)
    by (unfold QN; rewrite Z2Nat.id by exact Hc; reflexivity).
  rewrite HQ.
  assert (Hge : QN N <= inject_Z c * batchSize b).
  { assert (HB : ~ batchSize b == 0)
      by (intros Hz; rewrite Hz in Hpos; apply (Qlt_irrefl 0 Hpos)).
    rewrite <- (Qmult_div_r (QN N) (batchSize b) HB) at 1. rewrite Qmult_comm.
    apply Qmult_le_compat_r; [apply Qle_ceiling|apply Qlt_le_weak, Hpos]. }
  apply Qfloor_resp_le in Hge. rewrite Qfloor_QN in Hge. lia.
Qed.

Lemma slice_length k :
  length (Js.slice (pages b) (start_index b k) (end_index b k)) = (cut b (S k) - cut b k)%nat.
Proof.
  unfold Js.slice. fold N. rewrite cut_end. fold (cut b k).
  rewrite length_firstn, length_skipn. fold N.
  change (Js.rel_index (start_index b k) N) with (cut b k).
  pose proof (cut_le_N (S k)). pose proof (cut_mono k). lia.
Qed.

End Tiling.

Lemma mapi_positions (l : list page) (s m : nat) (g : nat -> Q) :
  map position (mapi_from (fun i pg => ((s + i)%nat, pg, g i)) m l) = seq (s + m) (length l).
Proof.
  revert m. induction l as [|x l IH]; intros m; [reflexivity|].
  simpl. rewrite IH, Nat.add_succ_r. reflexivity.
Qed.

Lemma telescope (f : nat -> nat) :
  (forall k, (f k <= f (S k))%nat) -> f 0%nat = 0%nat ->
  forall T, flat_map (fun k => seq (f k) (f (S k) - f k)%nat) (seq 0%nat T) = seq 0%nat (f T).
Proof.
  intros Hm H0 T. induction T as [|T IH]; [rewrite H0; reflexivity|].
  rewrite seq_S, flat_map_app, IH. simpl. rewrite app_nil_r.
  replace (f (S T)) with (f T + (f (S T) - f T))%nat at 2 by (specialize (Hm T); lia).
  rewrite seq_app. reflexivity.
Qed.

Lemma map_flat_map {A B C} (h : B -> C) (g : A -> list B) l :
  map h (flat_map g l) = flat_map (fun x => map h (g x)) l.
Proof. induction l as [|x l IH]; simpl; [|rewrite map_app, IH]; reflexivity. Qed.

(** The planned invocations visit the positions of [pages] once each, in order. *)
Lemma plan_positions b :
  0 < batchSize b -> map position (plan b) = seq 0%nat (length (pages b)).
Proof.
  intros Hpos. unfold plan. rewrite map_flat_map.
  assert (E : forall k, map position (chunk_plan b k)
                        = seq (cut b k) (cut b (S k) - cut b k)%nat).
  { intros k. unfold chunk_plan. rewrite mapi_positions, Nat.add_0_r, slice_length
      by exact Hpos. reflexivity. }
  rewrite (flat_map_ext _ _ E).
  rewrite telescope; [f_equal; apply cut_last; exact Hpos | apply cut_mono; exact Hpos
                      | apply cut_0; exact Hpos].
Qed.

Lemma in_mapi_from {A C} (f : nat -> A -> C) m l t :
  In t (mapi_from f m l) -> exists i x, (m <= i < m + length l)%nat /\ t = f i x.
Proof.
  revert m. induction l as [|x l IH]; intros m; simpl; [tauto|].
  intros [<- | H].
  - exists m, x. split; [lia|reflexivity].
  - apply IH in H as (i & y & Hi & ->). exists i, y. split; [lia|reflexivity].
Qed.

Lemma QN_linear k n i : QN k * QN n + QN i = QN (k * n + i).
Proof. unfold QN, inject_Z, Qmult, Qplus. simpl. f_equal. lia. Qed.

(** With a whole batch size, the index an invocation is given is its position. *)
Lemma plan_indices b n :
  batchSize b = QN n -> (1 <= n)%nat ->
  Forall (fun t => global_index t = QN (position t)) (plan b).
Proof.
  intros Hb Hn. assert (Hpos : 0 < batchSize b)
    by (rewrite Hb; unfold QN, Qlt; simpl; lia).
  apply Forall_forall. intros t Ht. unfold plan in Ht.
  apply in_flat_map in Ht as (k & _ & Ht). unfold chunk_plan in Ht.
  apply in_mapi_from in Ht as (i & pg & Hi & ->). rewrite slice_length in Hi by exact Hpos.
  unfold global_index, position, start_index. simpl. rewrite Hb, QN_linear.
  pose proof (cut_le_N b Hpos (S k)) as HN.
  assert (Hc0 : cut b k = Nat.min (k * n) (length (pages b))).
  { rewrite (cut_eq b Hpos k), Hb. unfold QN at 1 2. rewrite <- inject_Z_mult, Qfloor_Z.
    rewrite <- Nat2Z.inj_mul, Nat2Z.id. reflexivity. }
  assert (Hc : cut b k = (k * n)%nat) by lia.
  rewrite Hc. reflexivity.
Qed.

Lemma mapi_pages (h : nat -> page -> nat * page * Q) m (l : list page) :
  (forall i pg, snd (fst (h i pg)) = pg) ->
  map (fun t => snd (fst t)) (mapi_from h m l) = l.
Proof.
  intros Hh. revert m. induction l as [|x l IH]; intros m; [reflexivity|].
  cbn. rewrite Hh, IH. reflexivity.
Qed.

Lemma firstn_add {A} a d (l : list A) :
  firstn (a + d) l = (firstn a l ++ firstn d (skipn a l))%list.
Proof.
  revert l. induction a as [|a IH]; intros [|x l]; cbn; try reflexivity.
  - now rewrite firstn_nil.
  - now rewrite IH.
Qed.

Lemma telescope_firstn {A} (f : nat -> nat) (l : list A) :
  (forall k, (f k <= f (S k))%nat) -> f 0%nat = 0%nat ->
  forall T, flat_map (fun k => firstn (f (S k) - f k) (skipn (f k) l)) (seq 0%nat T)
            = firstn (f T) l.
Proof.
  intros Hm H0 T. induction T as [|T IH]; [rewrite H0; reflexivity|].
  rewrite seq_S, flat_map_app, IH. cbn. rewrite app_nil_r.
  replace (f (S T)) with (f T + (f (S T) - f T))%nat at 2 by (specialize (Hm T); lia).
  rewrite firstn_add. reflexivity.
Qed.

(** The planned invocations run the pages of [pages], in order. *)
Lemma plan_pages b :
  0 < batchSize b -> map (fun t => snd (fst t)) (plan b) = pages b.
Proof.
  intros Hpos. unfold plan. rewrite map_flat_map.
  assert (E : forall k, map (fun t => snd (fst t)) (chunk_plan b k)
                        = firstn (cut b (S k) - cut b k) (skipn (cut b k) (pages b))).
  { intros k. unfold chunk_plan. rewrite mapi_pages by reflexivity.
    unfold Js.slice. rewrite (cut_end b Hpos k). reflexivity. }
  rewrite (flat_map_ext _ _ E).
  rewrite (telescope_firstn (cut b) (pages b) (cut_mono b Hpos) (cut_0 b Hpos)).
  rewrite (cut_last b Hpos). apply firstn_all.
Qed.

Lemma map_pair_combine {A B C} (f : A -> B) (g : A -> C) l :
  map (fun x => (f x, g x)) l = combine (map f l) (map g l).
Proof. induction l as [|x l IH]; cbn; [|rewrite IH]; reflexivity. Qed.

Lemma in_combine_seq {A} (l : list A) s i x :
  In (i, x) (combine (seq s (length l)) l) -> (s <= i)%nat /\ nth_error l (i - s) = Some x.
Proof.
  revert s. induction l as [|y l IH]; intros s; cbn; [tauto|].
  intros [E|H].
  - inversion E; subst. rewrite Nat.sub_diag. split; [lia | reflexivity].
  - apply IH in H as [Hle Hn]. split; [lia|].
    replace (i - s)%nat with (S (i - S s)) by lia. exact Hn.
Qed.

Lemma nth_in_combine_seq {A} (l : list A) s i x :
  nth_error l i = Some x -> In ((s + i)%nat, x) (combine (seq s (length l)) l).
Proof.
  revert s i. induction l as [|y l IH]; intros s [|i]; cbn; try discriminate.
  - intros E. inversion E; subst. left. f_equal. lia.
  - intros E. right. rewrite <- Nat.add_succ_comm. apply IH, E.
Qed.

(** With a whole batch size, the planned invocations are exactly the pages
    of [pages], each run with its position as index. *)
Lemma plan_entries b n :
  batchSize b = QN n -> (1 <= n)%nat ->
  (forall t, In t (plan b) ->
     nth_error (pages b) (position t) = Some (snd (fst t)) /\
     t = (position t, snd (fst t), QN (position t))) /\
  (forall p pg, nth_error (pages b) p = Some pg -> In (p, pg, QN p) (plan b)).
Proof.
  intros Hb Hn. assert (Hpos : 0 < batchSize b)
    by (rewrite Hb; unfold QN, Qlt; simpl; lia).
  assert (HP : map (fun t => (position t, snd (fst t))) (plan b)
               = combine (seq 0%nat (length (pages b))) (pages b)).
  { rewrite map_pair_combine, plan_positions, plan_pages by exact Hpos. reflexivity. }
  pose proof (plan_indices b n Hb Hn) as HI. rewrite Forall_forall in HI.
  split.
  - intros t Ht.
    assert (Hin : In (position t, snd (fst t)) (combine (seq 0%nat (length (pages b))) (pages b)))
      by (rewrite <- HP; apply (in_map (fun t => (position t, snd (fst t))) _ _ Ht)).
    apply in_combine_seq in Hin as [_ Hn']. rewrite Nat.sub_0_r in Hn'.
    split; [exact Hn'|].
    specialize (HI t Ht). destruct t as [[j pg] q]. unfold global_index, position in *.
    cbn in *. now rewrite HI.
  - intros p pg Hp. apply (nth_in_combine_seq _ 0) in Hp. cbn in Hp.
    rewrite <- HP in Hp. apply in_map_iff in Hp as (t & E & Ht).
    specialize (HI t Ht). destruct t as [[j pg'] q]. unfold global_index, position in *.
    cbn in *. inversion E; subst. exact Ht.
Qed.

Lemma filter_partition {A} (f : A -> bool) l :
  Permutation (filter f l ++ filter (fun x => negb (f x)) l) l.
Proof.
  induction l as [|x l IH]; [reflexivity|]. simpl. destruct (f x); simpl.
  - constructor. exact IH.
  - symmetry. apply Permutation_cons_app. symmetry. exact IH.
Qed.

Lemma valid_pos b : valid_body b = true -> 0 < batchSize b.
Proof.
  unfold valid_body. intros H. apply andb_true_iff in H as [H _].
  apply Qle_bool_iff in H. apply Qlt_le_trans with 1; [reflexivity|exact H].
Qed.

Lemma POST_ok apiKey b env now_ms :
  Js.truthy apiKey = true -> valid_body b = true ->
  let R := map (outcome env b) (plan b) in
  fst (POST apiKey b env now_ms) =
  Ok (BatchOk (bookId b) (filter success R) (filter (fun r => negb (success r)) R)
        {| totalPages := length (pages b);
           successful := length (filter success R);
           failed := length (filter (fun r => negb (success r)) R);
           successRate := success_rate (length (filter success R)) (length (pages b)) |}
        (total_batches b) (batchSize b) now_ms).
Proof.
  intros Hk Hv R. unfold POST. rewrite Hk, Hv. simpl negb. cbv iota.
  apply fst_try_catch_ok. rewrite (fst_bind_ok _ _ _ (run_ok env b _)). reflexivity.
Qed.

End BatchFacts.

(* ------------------------------------------------------------------ *)
(** ** The batch orchestrator *)

(** C1: for a whole batch size [B] in 1..5, a request with [N] pages that
    gets past validation yields one result per position of [pages]: the
    [pageIndex] values of the successful and failed lists together are a
    permutation of 0..N-1; the results are exactly the outcomes of the pages,
    the page at position [p] run with index [p] and its result carrying
    [pageIndex] [p] (the position, not the page's own [pageIndex] field);
    [totalPages] is N, and [successful + failed = N]. *)
Theorem batch_one_result_per_position :
  forall apiKey b env now_ms n,
    Js.truthy apiKey = true ->
    Batch.batchSize b = Batch.QN n -> (1 <= n <= 5)%nat ->
    match fst (Batch.POST apiKey b env now_ms) with
    | Ok (Batch.BatchOk _ succ fail s _ _ _) =>
        Permutation (map Batch.result_pageIndex (succ ++ fail))
                    (map Batch.QN (seq 0%nat (length (Batch.pages b)))) /\
        (forall r, In r (succ ++ fail) <->
           exists p pg, nth_error (Batch.pages b) p = Some pg /\
             Batch.result_pageIndex r = Batch.QN p /\
             r = BatchPlan.outcome env b (p, pg, Batch.QN p)) /\
        Batch.totalPages s = length (Batch.pages b) /\
        (Batch.successful s + Batch.failed s)%nat = length (Batch.pages b)
    | _ => False
    end.
Proof.
  intros apiKey b env now_ms n Hk Hb Hn.
  assert (Hv : Batch.valid_body b = true).
  { unfold Batch.valid_body. rewrite Hb. apply andb_true_iff.
    split; apply Qle_bool_iff; unfold Batch.QN, Qle; simpl; lia. }
  rewrite (BatchFacts.POST_ok apiKey b env now_ms Hk Hv). cbn zeta iota beta.
  set (R := map (BatchPlan.outcome env b) (BatchPlan.plan b)).
  assert (HR : map Batch.result_pageIndex R = map Batch.QN (seq 0%nat (length (Batch.pages b)))).
  { unfold R. rewrite map_map.
    rewrite <- (BatchFacts.plan_positions b (BatchFacts.valid_pos b Hv)), map_map.
    apply map_ext_in. intros t Ht. rewrite BatchFacts.outcome_index.
    pose proof (BatchFacts.plan_indices b n Hb ltac:(lia)) as HF.
    rewrite Forall_forall in HF. exact (HF t Ht). }
  pose proof (BatchFacts.filter_partition Batch.success R) as HP.
  split; [|split; [|split; [reflexivity|]]].
  - rewrite <- HR. apply Permutation_map. exact HP.
  - intros r.
    destruct (BatchFacts.plan_entries b n Hb ltac:(lia)) as [Hplan Hpages].
    split.
    + intros Hr. apply (Permutation_in _ HP) in Hr. unfold R in Hr.
      apply in_map_iff in Hr as (t & <- & Ht).
      destruct (Hplan t Ht) as [Hn' Et].
      destruct t as [[j pg] q]. unfold BatchPlan.position in *. cbn in Hn', Et.
      assert (q = Batch.QN j) as -> by (now inversion Et).
      exists j, pg. split; [exact Hn'|].
      split; [rewrite BatchFacts.outcome_index; reflexivity | reflexivity].
    + intros (p & pg & Hp & _ & ->). apply (Permutation_in _ (Permutation_sym HP)).
      unfold R. apply in_map, Hpages, Hp.
  - simpl. rewrite <- length_app, (Permutation_length HP).
    rewrite <- (length_map Batch.result_pageIndex R), HR, length_map, length_seq.
    reflexivity.
Qed.

Lemma batch_one_result_per_position_witness :
  let b := Samples.body_of (Samples.pages_of 3) (Batch.QN 2) in
  Js.truthy (Some "key") = true /\
  Batch.batchSize b = Batch.QN 2 /\ (1 <= 2 <= 5)%nat /\
  match fst (Batch.POST (Some "key") b (fun _ => Samples.page_env_ok) 0) with
  | Ok (Batch.BatchOk _ succ fail s _ _ _) =>
      Permutation (map Batch.result_pageIndex (succ ++ fail))
                  (map Batch.QN (seq 0%nat (length (Batch.pages b)))) /\
      (forall r, In r (succ ++ fail) <->
         exists p pg, nth_error (Batch.pages b) p = Some pg /\
           Batch.result_pageIndex r = Batch.QN p /\
           r = BatchPlan.outcome (fun _ => Samples.page_env_ok) b (p, pg, Batch.QN p)) /\
      Batch.totalPages s = length (Batch.pages b) /\
      (Batch.successful s + Batch.failed s)%nat = length (Batch.pages b)
  | _ => False
  end.
Proof.
  intros b.
  assert (Hk : Js.truthy (Some "key") = true) by reflexivity.
  assert (Hb : Batch.batchSize b = Batch.QN 2) by reflexivity.
  assert (Hn : (1 <= 2 <= 5)%nat) by lia.
  split; [exact Hk|]. split; [exact Hb|]. split; [exact Hn|].
  exact (batch_one_result_per_position (Some "key") b (fun _ => Samples.page_env_ok) 0 2
           Hk Hb Hn).
Defined.

(** C1 (counterexample): a single page whose own [pageIndex] field is 7 comes
    back with [pageIndex] 0, its position in [pages]. *)
Lemma batch_result_index_is_position :
  match fst (Batch.POST (Some "key")
               (Samples.body_of [{| Batch.text := "The end";
                                    Batch.prompt := "A boat at sunset";
                                    Batch.pageIndex := 7 |}] 1)
               (fun _ => Samples.page_env_ok) 0) with
  | Ok (Batch.BatchOk _ succ fail _ _ _ _) =>
      map Batch.result_pageIndex (succ ++ fail) = [0]
  | _ => False
  end.
Proof. vm_compute. reflexivity. Qed.

(** C2: every page invocation settles inside [generatePageIllustration]
    (its failures are caught into that page's result), so the loop and the
    route never abort: whatever the outside world answers for page [k], the
    results list has one entry per page, every entry other than the [k]-th
    is the same as in any run that differs from it only at page [k], and
    the route replies [BatchOk] with those results split by [success]. *)
Theorem batch_failure_isolated :
  forall apiKey b env env' now_ms k,
    Js.truthy apiKey = true -> Batch.valid_body b = true ->
    (forall j, j <> k -> env j = env' j) ->
    exists R R',
      fst (Batch.run_batches env b (seq 0%nat (Z.to_nat (Batch.total_batches b)))) = Ok R /\
      fst (Batch.run_batches env' b (seq 0%nat (Z.to_nat (Batch.total_batches b)))) = Ok R' /\
      length R = length (Batch.pages b) /\ length R' = length (Batch.pages b) /\
      (forall j, j <> k -> nth_error R j = nth_error R' j) /\
      (exists s, fst (Batch.POST apiKey b env now_ms) =
         Ok (Batch.BatchOk (Batch.bookId b) (filter Batch.success R)
               (filter (fun r => negb (Batch.success r)) R) s
               (Batch.total_batches b) (Batch.batchSize b) now_ms)).
Proof.
  intros apiKey b env env' now_ms k Hk Hv Henv.
  pose proof (BatchFacts.plan_positions b (BatchFacts.valid_pos b Hv)) as HP.
  exists (map (BatchPlan.outcome env b) (BatchPlan.plan b)),
         (map (BatchPlan.outcome env' b) (BatchPlan.plan b)).
  assert (Hlen : length (BatchPlan.plan b) = length (Batch.pages b))
    by (rewrite <- (length_map BatchPlan.position), HP, length_seq; reflexivity).
  split; [apply BatchFacts.run_ok|]. split; [apply BatchFacts.run_ok|].
  split; [rewrite length_map; exact Hlen|]. split; [rewrite length_map; exact Hlen|].
  split.
  - intros j Hj. rewrite !nth_error_map.
    destruct (nth_error (BatchPlan.plan b) j) as [t|] eqn:Et; [|reflexivity].
    assert (Hpos : BatchPlan.position t = j).
    { assert (H := f_equal (fun l => nth_error l j) HP). simpl in H.
      rewrite nth_error_map, Et, nth_error_seq in H. simpl in H.
      destruct (j <? length (Batch.pages b))%nat; inversion H; reflexivity. }
    destruct t as [[j' pg] q]. unfold BatchPlan.position in Hpos. simpl in Hpos. subst j'.
    simpl. unfold BatchPlan.outcome. rewrite (Henv j Hj). reflexivity.
  - eexists. apply BatchFacts.POST_ok; assumption.
Qed.

Lemma batch_failure_isolated_witness :
  let b := Samples.body_of (Samples.pages_of 3) (Batch.QN 2) in
  let env := fun _ : nat => Samples.page_env_ok in
  let env' := fun j : nat =>
    if (j =? 1)%nat then
      {| Batch.generation := fun _ => Rejects "quota exceeded";
         Batch.storage := Samples.storage_ok;
         Batch.page_clock := Samples.clk |}
    else Samples.page_env_ok in
  Js.truthy (Some "key") = true /\ Batch.valid_body b = true /\
  (forall j, j <> 1%nat -> env j = env' j) /\
  exists R R',
    fst (Batch.run_batches env b (seq 0%nat (Z.to_nat (Batch.total_batches b)))) = Ok R /\
    fst (Batch.run_batches env' b (seq 0%nat (Z.to_nat (Batch.total_batches b)))) = Ok R' /\
    length R = length (Batch.pages b) /\ length R' = length (Batch.pages b) /\
    (forall j, j <> 1%nat -> nth_error R j = nth_error R' j) /\
    (exists s, fst (Batch.POST (Some "key") b env 0) =
       Ok (Batch.BatchOk (Batch.bookId b) (filter Batch.success R)
             (filter (fun r => negb (Batch.success r)) R) s
             (Batch.total_batches b) (Batch.batchSize b) 0)).
Proof.
  intros b env env'.
  assert (Hk : Js.truthy (Some "key") = true) by reflexivity.
  assert (Hv : Batch.valid_body b = true) by reflexivity.
  assert (He : forall j, j <> 1%nat -> env j = env' j).
  { intros j Hj. unfold env, env'. destruct (Nat.eqb_spec j 1); [contradiction|reflexivity]. }
  split; [exact Hk|]. split; [exact Hv|]. split; [exact He|].
  exact (batch_failure_isolated (Some "key") b env env' 0 1 Hk Hv He).
Defined.

(* ==================================================================== *)
(** * Further properties of the modelled code *)

Module MonadFacts.

Lemma try_catch_ok_id {A} (m : M A) h a : fst m = Ok a -> try_catch m h = m.
Proof. destruct m as [[x|e] w]; simpl; intros H; inversion H; reflexivity. Qed.

Lemma try_catch_ret_ok {A} (m : M A) (x : A) :
  exists v, fst (try_catch m (fun _ => ret x)) = Ok v.
Proof. destruct m as [[a|e] w]; simpl; eauto. Qed.

Lemma fst_bind_exn {A B} (m : M A) (f : A -> M B) e :
  fst m = Exn e -> fst (bind m f) = Exn e.
Proof. destruct m as [[a|e'] w]; simpl; intros H; inversion H; reflexivity. Qed.

Lemma upload_ok e buf fn bucket :
  exists v, fst (Storage.uploadImageToStorage e buf fn bucket) = Ok v.
Proof. apply try_catch_ret_ok. Qed.

End MonadFacts.

(* ------------------------------------------------------------------ *)
(** ** The persistence sink *)

(** X1: the only file-system effects of [uploadImageToStorage] are those of
    its local fallback: none, the images directory alone, or the images
    directory and then the one file public/images/<filename> holding the
    given bytes. Any effect at all means the storage upload replied an
    error. *)
Theorem upload_effects_only_fallback :
  forall e buf filename bucket,
    let w := snd (Storage.uploadImageToStorage e buf filename bucket) in
    (w = [] \/ w = [Mkdir (Storage.images_dir e)] \/
     w = [Mkdir (Storage.images_dir e);
          WriteFile (Path.join [Storage.cwd e; "public"; "images"; filename]) buf]) /\
    (w <> [] -> Storage.upload_replied_error e = true).
Proof.
  intros [key lb cb up pu cwd mk wr] buf filename bucket w. subst w.
  unfold Storage.uploadImageToStorage, Storage.upload_body, Storage.ensure_bucket,
    Storage.local_fallback, Storage.upload_replied_error; cbn -[Path.join].
  destruct key, lb as [[bs|m]|m], cb as [[[]|m']|m'], up as [[p|m1]|m1],
    mk as [[]|m2], wr as [[]|m3]; cbn -[Path.join];
    try destruct (existsb (String.eqb bucket) bs); cbn -[Path.join];
    (split; [tauto | intros H; solve [reflexivity | now destruct H]]).
Qed.

(* ------------------------------------------------------------------ *)
(** ** The [processImageResponse] helpers *)

Lemma process_parts_first_inline se fn ps :
  Extract.process_parts se fn ps =
  match Responses.first_inline ps with
  | Some d => Storage.uploadImageToStorage se (FromBase64 d) fn Storage.default_bucket
  | None => (Ok None, [])
  end.
Proof.
  induction ps as [|p ps IH]; [reflexivity|]. simpl.
  destruct (Extract.inlineData p) as [[d|]|]; auto.
  destruct (negb (d =? "")); auto.
Qed.

Lemma process_response_first_inline se fn r :
  Extract.process_response se fn r =
  match Responses.first_inline (Extract.response_parts r) with
  | Some d => Storage.uploadImageToStorage se (FromBase64 d) fn Storage.default_bucket
  | None => (Ok None, [])
  end.
Proof.
  unfold Extract.process_response, Extract.response_parts.
  destruct (Extract.first_parts r) as [ps|]; [|reflexivity].
  rewrite process_parts_first_inline.
  destruct (Responses.first_inline ps) as [d|]; [|reflexivity].
  destruct (MonadFacts.upload_ok se (FromBase64 d) fn Storage.default_bucket) as [v Hv].
  now apply MonadFacts.try_catch_ok_id with v.
Qed.

(** X2: the [processImageResponse] helpers of the batch and advanced routes
    are exactly one [uploadImageToStorage] call, on the first part of the
    first candidate whose inline data is non-empty, under the route's file
    name. When there is no such part they yield [null] with no effect. Their
    [try/catch] never changes the outcome of the upload. *)
Theorem processImageResponse_uploads_first_inline :
  forall se clk r,
    (forall pageIndex,
       Extract.batch_processImageResponse se clk r pageIndex =
       match Responses.first_inline (Extract.response_parts r) with
       | Some d => Storage.uploadImageToStorage se (FromBase64 d)
                     (Extract.batch_filename clk pageIndex) Storage.default_bucket
       | None => (Ok None, [])
       end) /\
    (forall pageIndex,
       Extract.advanced_processImageResponse se clk r pageIndex =
       match Responses.first_inline (Extract.response_parts r) with
       | Some d => Storage.uploadImageToStorage se (FromBase64 d)
                     (Extract.advanced_filename clk pageIndex) Storage.default_bucket
       | None => (Ok None, [])
       end).
Proof. intros se clk r; split; intros i; apply process_response_first_inline. Qed.

(* ------------------------------------------------------------------ *)
(** ** [generateIllustration] of the story route *)

Module GenerateFacts.
Import Extract GenerateInv.

Lemma inv_mkdir_prefix fe fn r w :
  gen_inv fe fn (r, w) ->
  gen_inv fe fn (r, Mkdir (Path.join [fs_cwd fe; "public"; "images"]) :: w).
Proof. intros [HF Hr]. split; [constructor; auto | exact Hr]. Qed.

Lemma generate_parts_inv fe fn ps : gen_inv fe fn (generate_parts fe fn ps).
Proof.
  induction ps as [|p ps IH]; [split; [constructor | reflexivity]|].
  cbn [generate_parts].
  destruct (generate_parts fe fn ps) as [r w] eqn:E.
  unfold mkdir_images, write_image.
  destruct (fs_mkdir fe) as [[]|m1], (fs_write fe) as [[]|m2],
    (inlineData p) as [[d|]|]; cbn -[Path.join Js.at_index Js.split Js.includes gen_inv];
    try destruct (negb (d =? "")); cbn -[Path.join Js.at_index Js.split Js.includes gen_inv];
    try (destruct (text p) as [t|]; cbn -[Path.join Js.at_index Js.split Js.includes gen_inv];
         [destruct (negb (t =? "") && Js.includes "data:image" t);
          cbn -[Path.join Js.at_index Js.split Js.includes gen_inv];
          [destruct (Js.at_index (Js.split "," t) 1) as [b64|];
           cbn -[Path.join Js.at_index Js.split Js.includes gen_inv];
           [destruct (negb (b64 =? ""));
            cbn -[Path.join Js.at_index Js.split Js.includes gen_inv] |] |] |]);
    first [ exact IH
          | apply inv_mkdir_prefix; exact IH
          | split; [ apply Forall_forall; intros x Hx; cbn in Hx;
                     repeat destruct Hx as [<-|Hx]; try contradiction; eauto
                   | cbn; auto ] ].
Qed.

End GenerateFacts.

(** X3: [generateIllustration] never throws. It only creates the images
    directory and writes the one file public/images/<illustration_...png>.
    When it yields a URL, that URL is "/images/" followed by the file name
    and exactly one file was written. When it yields [null], nothing was
    written, even if the model call, the directory creation or the write
    failed. *)
Theorem generateIllustration_writes_its_url :
  forall fe clk gen,
    let m := Extract.generateIllustration fe clk gen in
    let fn := Extract.illustrate_filename clk in
    Forall (fun e => e = Mkdir (Path.join [Extract.fs_cwd fe; "public"; "images"]) \/
                     exists b, e = WriteFile (Path.join [Extract.fs_cwd fe; "public"; "images"; fn]) b)
      (snd m) /\
    match fst m with
    | Ok (Some u) => u = "/images/" ++ fn /\ length (Extract.written (snd m)) = 1%nat
    | Ok None => Extract.written (snd m) = []
    | Exn _ => False
    end.
Proof.
  intros fe clk gen m fn. subst m.
  unfold Extract.generateIllustration. fold fn. clearbody fn.
  destruct gen as [resp|msg]; cbn -[Extract.generate_parts Path.join];
    [|split; [constructor | reflexivity]].
  destruct (Extract.first_parts resp) as [ps|]; cbn -[Extract.generate_parts Path.join];
    [|split; [constructor | reflexivity]].
  pose proof (GenerateFacts.generate_parts_inv fe fn ps) as [HF Hr].
  destruct (Extract.generate_parts fe fn ps) as [[o|e] w]; cbn -[Path.join] in *;
    rewrite ?app_nil_r; split; auto.
Qed.

(* ------------------------------------------------------------------ *)
(** ** [POST] of the single-illustration route *)

Lemma illustrate_parts_first se fn ps :
  Extract.illustrate_parts se fn ps =
  match Responses.first_inline_field ps with
  | None => ret None
  | Some image_data =>
      if Js.truthy image_data then
        let* url := Storage.uploadImageToStorage se
                      (FromBase64 (match image_data with Some d => d | None => "" end))
                      fn Storage.default_bucket in
        match url with
        | Some u => ret (Some u)
        | None => throw "Failed to upload image to storage"
        end
      else throw "No image data received"
  end.
Proof.
  induction ps as [|p ps IH]; [reflexivity|].
  cbn [Extract.illustrate_parts Responses.first_inline_field].
  destruct (Extract.inlineData p); [reflexivity | exact IH].
Qed.

(** X4: with an API key and a valid body, the single-illustration route
    replies as follows:
    - 500 with the message when the model call rejects;
    - 502 "No image returned from model" when no part of the first
      candidate has an [inlineData] field;
    - 500 "No image data received" when the first such field has no data;
    - otherwise it uploads that data, and replies 500 "Failed to upload
      image to storage" when the upload yields [null], or 200 with the URL
      the upload yields. *)
Theorem illustrate_route_replies :
  forall apiKey b gen se clk,
    Js.truthy apiKey = true -> IllustrateRoute.valid_body b = true ->
    let call := gen (Prompt.illustrate_prompt (IllustrateRoute.prompt b)
                       (IllustrateRoute.characterDescription b)
                       (IllustrateRoute.previousImageUrl b) (IllustrateRoute.style b)
                       (IllustrateRoute.consistencyMode b) (IllustrateRoute.editMode b)) in
    let reply := fst (IllustrateRoute.POST apiKey b gen se clk) in
    (forall msg, call = Rejects msg -> reply = Ok (IllustrateRoute.ErrorReply 500 msg)) /\
    (forall r, call = Resolves r ->
       match Responses.first_inline_field (Extract.response_parts r) with
       | None => reply = Ok (IllustrateRoute.ErrorReply 502 "No image returned from model")
       | Some None | Some (Some "") =>
           reply = Ok (IllustrateRoute.ErrorReply 500 "No image data received")
       | Some (Some d) =>
           let up := fst (Storage.uploadImageToStorage se (FromBase64 d)
                            (Extract.illustrate_filename clk) Storage.default_bucket) in
           (up = Ok None ->
            reply = Ok (IllustrateRoute.ErrorReply 500 "Failed to upload image to storage")) /\
           (forall u, up = Ok (Some u) -> u <> "" -> reply = Ok (IllustrateRoute.ImageUrl u))
       end).
Proof.
  intros apiKey b gen se clk Hk Hv call reply. subst reply.
  unfold IllustrateRoute.POST. rewrite Hk, Hv. cbn [negb]. fold call.
  split.
  - intros msg Hc. rewrite Hc. reflexivity.
  - intros r Hc. rewrite Hc. cbn [await bind ret].
    unfold Extract.illustrate_extract, Extract.response_parts.
    destruct (Extract.first_parts r) as [ps|]; [|reflexivity].
    rewrite illustrate_parts_first.
    destruct (Responses.first_inline_field ps) as [[[|c d]|]|]; try reflexivity.
    cbn [Js.truthy String.eqb negb].
    destruct (Storage.uploadImageToStorage se (FromBase64 (String c d))
                (Extract.illustrate_filename clk) Storage.default_bucket)
      as [[[u|]|e] w]; cbn; split; intros; try discriminate; try reflexivity.
    inversion H; subst. reflexivity.
Qed.

Lemma illustrate_route_replies_witness :
  fst (IllustrateRoute.POST (Some "key") MoreSamples.illustrate_body
         (fun _ => Resolves MoreSamples.image_response) Samples.storage_ok Samples.clk)
  = Ok (IllustrateRoute.ImageUrl "https://cdn.example/story-images/page.png").
Proof.
  destruct (illustrate_route_replies (Some "key") MoreSamples.illustrate_body
              (fun _ => Resolves MoreSamples.image_response) Samples.storage_ok Samples.clk
              eq_refl eq_refl) as [_ H].
  apply (proj2 (H MoreSamples.image_response eq_refl)); [reflexivity | discriminate].
Defined.

(* ------------------------------------------------------------------ *)
(** ** The batch route's results *)

Lemma outcome_shape env b t :
  let r := BatchPlan.outcome env b t in
  (Batch.success r = true -> Js.truthy (Batch.imageUrl r) = true /\ Batch.error r = None) /\
  (Batch.success r = false -> Batch.imageUrl r = None /\ exists m, Batch.error r = Some m).
Proof.
  destruct t as [[j pg] q]. unfold BatchPlan.outcome, BatchPlan.value_or,
    Batch.generatePageIllustration.
  destruct (Batch.generation (env j) _) as [resp|m]; cbn -[Extract.batch_processImageResponse].
  - destruct (Extract.batch_processImageResponse _ _ resp q) as [[u|m] w]; cbn.
    + destruct (Js.truthy u) eqn:Hu; cbn; split; intros H; try discriminate; eauto.
    + split; intros H; try discriminate; eauto.
  - split; intros H; try discriminate; eauto.
Qed.

(** X5: with an API key and a valid body, the batch route replies with its
    result lists. Every result in [results] is a success with a truthy
    [imageUrl] and no [error]. Every result in [failedResults] is a failure
    with no [imageUrl] and an [error] message. *)
Theorem batch_results_shape :
  forall apiKey b env now_ms,
    Js.truthy apiKey = true -> Batch.valid_body b = true ->
    match fst (Batch.POST apiKey b env now_ms) with
    | Ok (Batch.BatchOk _ succeeded failedResults _ _ _ _) =>
        Forall (fun r => Batch.success r = true /\ Js.truthy (Batch.imageUrl r) = true /\
                         Batch.error r = None) succeeded /\
        Forall (fun r => Batch.success r = false /\ Batch.imageUrl r = None /\
                         exists m, Batch.error r = Some m) failedResults
    | _ => False
    end.
Proof.
  intros apiKey b env now_ms Hk Hv. rewrite (BatchFacts.POST_ok apiKey b env now_ms Hk Hv).
  split; apply Forall_forall; intros r Hr; apply filter_In in Hr as [Hin Hs];
    apply in_map_iff in Hin as (t & <- & _);
    destruct (outcome_shape env b t) as [H1 H2].
  - split; [exact Hs | apply H1, Hs].
  - apply negb_true_iff in Hs. split; [exact Hs | apply H2, Hs].
Qed.

Lemma batch_results_shape_witness :
  Js.truthy (Some "key") = true /\
  Batch.valid_body (Samples.body_of (Samples.pages_of 3) 2) = true /\
  match fst (Batch.POST (Some "key") (Samples.body_of (Samples.pages_of 3) 2)
               (fun _ => Samples.page_env_ok) 0) with
  | Ok (Batch.BatchOk _ succeeded failedResults _ _ _ _) =>
      Forall (fun r => Batch.success r = true /\ Js.truthy (Batch.imageUrl r) = true /\
                       Batch.error r = None) succeeded /\
      Forall (fun r => Batch.success r = false /\ Batch.imageUrl r = None /\
                       exists m, Batch.error r = Some m) failedResults
  | _ => False
  end.
Proof.
  split; [reflexivity | split; [reflexivity|]].
  apply batch_results_shape; reflexivity.
Defined.

Lemma QN_pos n : (0 < n)%nat -> 0 < Batch.QN n.
Proof. intros H. unfold Batch.QN. change 0 with (inject_Z 0). rewrite <- Zlt_Qlt. lia. Qed.

Lemma QN_le m n : (m <= n)%nat -> Batch.QN m <= Batch.QN n.
Proof. intros H. unfold Batch.QN. rewrite <- Zle_Qle. lia. Qed.

(** X6: for a non-empty book and at most as many successes as pages, the
    batch summary's [successRate] is an integer percentage between 0 and
    100 followed by "%". It is "100%" when every page succeeded and "0%"
    when none did. *)
Theorem success_rate_percent :
  forall s n, (0 < n)%nat -> (s <= n)%nat ->
    exists k, (0 <= k <= 100)%Z /\
      Batch.success_rate s n = Js.string_of_Z k ++ "%" /\
      (s = n -> k = 100%Z) /\ (s = 0%nat -> k = 0%Z).
Proof.
  intros s n Hn Hs.
  assert (Hp : 0 < Batch.QN n) by now apply QN_pos.
  unfold Batch.success_rate, Js.div.
  replace (Qeq_bool (Batch.QN n) 0) with false
    by (symmetry; apply not_true_iff_false; intros E; apply Qeq_bool_iff in E;
        rewrite E in Hp; discriminate).
  cbn [Js.mul Js.round Js.string_of_rounded]. rewrite Qfloor_Z.
  set (q := Batch.QN s / Batch.QN n).
  assert (Hq0 : 0 <= q).
  { apply Qle_shift_div_l; [exact Hp|]. rewrite Qmult_0_l. apply (QN_le 0 s). lia. }
  assert (Hq1 : q <= 1).
  { apply Qle_shift_div_r; [exact Hp|]. rewrite Qmult_1_l. now apply QN_le. }
  exists (Qfloor (q * 100 + (1 # 2))). repeat split.
  - change 0%Z with (Qfloor 0). apply Qfloor_resp_le.
    apply Qle_trans with (0 * 100 + (1 # 2)); [discriminate|].
    apply Qplus_le_compat; [|apply Qle_refl].
    apply Qmult_le_compat_r; [exact Hq0 | discriminate].
  - change 100%Z with (Qfloor (1 * 100 + (1 # 2))). apply Qfloor_resp_le.
    apply Qplus_le_compat; [|apply Qle_refl].
    apply Qmult_le_compat_r; [exact Hq1 | discriminate].
  - intros ->. change 100%Z with (Qfloor (1 * 100 + (1 # 2))). apply Qfloor_comp.
    unfold q, Qdiv. rewrite Qmult_inv_r; [reflexivity|].
    intros E; rewrite E in Hp; discriminate.
  - intros ->. change 0%Z with (Qfloor (0 * 100 + (1 # 2))). apply Qfloor_comp.
    unfold q, Qdiv. change (Batch.QN 0) with 0. rewrite Qmult_0_l. reflexivity.
Qed.

Lemma success_rate_percent_witness :
  ((0 < 3)%nat /\ (2 <= 3)%nat) /\
  exists k, (0 <= k <= 100)%Z /\
      Batch.success_rate 2 3 = Js.string_of_Z k ++ "%" /\
      ((2 = 3)%nat -> k = 100%Z) /\ ((2 = 0)%nat -> k = 0%Z).
Proof. split; [split; lia | apply (success_rate_percent 2 3); lia]. Defined.

(* ------------------------------------------------------------------ *)
(** ** The retention sweep *)

(** X7: for any listing of the images directory, with [n] the number of
    illustration_*.png files in it, the sweep reports [n - 50] deleted
    (0 when [n <= 50]) and [min n 50] kept, whichever unlinks fail. With at
    most 50 such files the directory is left exactly as it was. *)
Theorem sweep_counts :
  forall unlink_fails files,
    let n := length (filter Cleanup.eligible files) in
    fst (Cleanup.POST unlink_fails (Some files)) = Cleanup.Counts (n - 50) (Nat.min n 50) /\
    ((n <= 50)%nat -> snd (Cleanup.POST unlink_fails (Some files)) = Some files).
Proof.
  intros fails files n. rewrite SweepFacts.POST_some. cbn [fst snd].
  rewrite length_skipn, length_firstn, SweepFacts.entries_length. fold n.
  split; [f_equal; unfold Cleanup.retention; lia|].
  intros Hn. rewrite skipn_all2; [reflexivity|].
  rewrite SweepFacts.entries_length. exact Hn.
Qed.

Module NameFacts.
Import Digits.

Lemma digit_char (d : N) : (d < 10)%N ->
  is_digit (ascii_of_N (48 + d)) = true /\
  Cleanup.digit_value (ascii_of_N (48 + d)) = Some (Z.of_N d).
Proof.
  intros H.
  assert (d = 0 \/ d = 1 \/ d = 2 \/ d = 3 \/ d = 4 \/ d = 5 \/ d = 6 \/ d = 7
          \/ d = 8 \/ d = 9)%N as Hd by lia.
  repeat destruct Hd as [-> | Hd]; [..|subst]; split; reflexivity.
Qed.

Lemma digit_cases (c : ascii) : is_digit c = true ->
  (c = "0" \/ c = "1" \/ c = "2" \/ c = "3" \/ c = "4" \/ c = "5" \/ c = "6"
   \/ c = "7" \/ c = "8" \/ c = "9")%char.
Proof.
  destruct c as [[] [] [] [] [] [] [] []]; vm_compute; intros H;
    try discriminate H; auto 10.
Qed.

Lemma digits_of_pos_all f n acc :
  all_digits (Js.digits_of_pos f n acc) = all_digits acc.
Proof.
  revert n acc; induction f as [|f IH]; intros n acc; [reflexivity|].
  cbn [Js.digits_of_pos].
  assert (Hm : (n mod 10 < 10)%N) by (apply N.mod_lt; discriminate).
  destruct (digit_char _ Hm) as [Hc _].
  destruct (n / 10 =? 0)%N; [|rewrite IH]; cbn [all_digits]; now rewrite Hc.
Qed.

Lemma digits_cons (d : N) x s : (d < 10)%N ->
  Cleanup.digits 10 x (String (ascii_of_N (48 + d)) s)
  = Cleanup.digits 10 (Some (10 * match x with Some a => a | None => 0 end
                             + Z.of_N d)%Z) s.
Proof.
  intros H. destruct (digit_char d H) as [_ Hv]. cbn [Cleanup.digits]. rewrite Hv.
  replace (Z.of_N d <? 10)%Z with true by (symmetry; apply Z.ltb_lt; lia).
  reflexivity.
Qed.

Lemma digits_of_pos_value f n acc x :
  (0 < n)%N -> (Z.of_N n < 10 ^ Z.of_nat f)%Z ->
  exists k, Cleanup.digits 10 x (Js.digits_of_pos f n acc)
            = Cleanup.digits 10 (Some (match x with Some a => a | None => 0 end
                                       * 10 ^ Z.of_nat k + Z.of_N n)%Z) acc.
Proof.
  revert n acc x; induction f as [|f IH]; intros n acc x Hpos Hlt.
  - simpl in Hlt. lia.
  - cbn [Js.digits_of_pos].
    assert (Hm : (n mod 10 < 10)%N) by (apply N.mod_lt; discriminate).
    assert (Hdiv : n = (10 * (n / 10) + n mod 10)%N) by (apply N.div_mod; discriminate).
    destruct (N.eqb_spec (n / 10) 0) as [Hq|Hq].
    + exists 1%nat. rewrite (digits_cons _ _ _ Hm). f_equal. f_equal.
      rewrite Hq in Hdiv. change (10 ^ Z.of_nat 1)%Z with 10%Z. lia.
    + rewrite Nat2Z.inj_succ, Z.pow_succ_r in Hlt by lia.
      destruct (IH (n / 10)%N (String (ascii_of_N (48 + n mod 10)) acc) x)
        as [k Hk]; [lia | |].
      { rewrite N2Z.inj_div. apply Z.div_lt_upper_bound; lia. }
      rewrite Hk, (digits_cons _ _ _ Hm). cbn iota.
      exists (S k). rewrite Nat2Z.inj_succ, Z.pow_succ_r by lia.
      f_equal. f_equal. lia.
Qed.

Lemma size_bound p : (Z.pos p < 10 ^ Z.of_nat (Pos.size_nat p))%Z.
Proof.
  induction p as [p IH|p IH|]; cbn [Pos.size_nat].
  - rewrite Nat2Z.inj_succ, Z.pow_succ_r, Pos2Z.inj_xI by lia. lia.
  - rewrite Nat2Z.inj_succ, Z.pow_succ_r, Pos2Z.inj_xO by lia. lia.
  - reflexivity.
Qed.

Lemma digits_of_pos_nonempty f n acc :
  exists c s, Js.digits_of_pos (S f) n acc = String c s.
Proof.
  revert n acc; induction f as [|f IH]; intros n acc; cbn [Js.digits_of_pos].
  - destruct (n / 10 =? 0)%N; eauto.
  - destruct (n / 10 =? 0)%N; [eauto|]. apply IH.
Qed.

(** [parseInt] on a string of decimal digits reads all of them. *)
Lemma mathInt_all_digits s :
  s <> "" -> all_digits s = true -> Cleanup.mathInt s = Cleanup.digits 10 None s.
Proof.
  intros Hne Hd. destruct s as [|c s]; [contradiction|].
  cbn [all_digits] in Hd. apply andb_true_iff in Hd as [Hc Hs].
  unfold Cleanup.mathInt.
  destruct (digit_cases c Hc) as [->|[->|[->|[->|[->|[->|[->|[->|[->| ->]]]]]]]]];
    cbn -[Cleanup.digits];
    try (destruct (Cleanup.digits _ _ _); reflexivity).
  destruct s as [|c2 s]; [reflexivity|].
  cbn [all_digits] in Hs. apply andb_true_iff in Hs as [Hc2 _].
  destruct (digit_cases c2 Hc2) as [->|[->|[->|[->|[->|[->|[->|[->|[->| ->]]]]]]]]];
    cbn -[Cleanup.digits]; destruct (Cleanup.digits _ _ _); reflexivity.
Qed.

Lemma mathInt_neg_digits s :
  s <> "" -> all_digits s = true ->
  Cleanup.mathInt ("-" ++ s) = option_map Z.opp (Cleanup.digits 10 None s).
Proof.
  intros Hne Hd. destruct s as [|c s]; [contradiction|].
  cbn [all_digits] in Hd. apply andb_true_iff in Hd as [Hc Hs].
  unfold Cleanup.mathInt.
  destruct (digit_cases c Hc) as [->|[->|[->|[->|[->|[->|[->|[->|[->| ->]]]]]]]]];
    cbn -[Cleanup.digits]; try reflexivity.
  destruct s as [|c2 s]; [reflexivity|].
  cbn [all_digits] in Hs. apply andb_true_iff in Hs as [Hc2 _].
  destruct (digit_cases c2 Hc2) as [->|[->|[->|[->|[->|[->|[->|[->|[->| ->]]]]]]]]];
    reflexivity.
Qed.

Lemma mathInt_string_of_pos p :
  Cleanup.mathInt (Js.digits_of_pos (Pos.size_nat p) (Npos p) "") = Some (Z.pos p)
  /\ all_digits (Js.digits_of_pos (Pos.size_nat p) (Npos p) "") = true
  /\ Js.digits_of_pos (Pos.size_nat p) (Npos p) "" <> "".
Proof.
  assert (Hall : all_digits (Js.digits_of_pos (Pos.size_nat p) (Npos p) "") = true)
    by (rewrite digits_of_pos_all; reflexivity).
  assert (Hne : Js.digits_of_pos (Pos.size_nat p) (Npos p) "" <> "").
  { destruct p; cbn [Pos.size_nat];
      match goal with
      | |- Js.digits_of_pos (S ?f) ?n ?a <> _ =>
          destruct (digits_of_pos_nonempty f n a) as (c & s & ->)
      end; discriminate. }
  split; [|split; assumption].
  rewrite mathInt_all_digits by assumption.
  destruct (digits_of_pos_value (Pos.size_nat p) (Npos p) "" None) as [k Hk];
    [reflexivity | apply size_bound |].
  rewrite Hk. reflexivity.
Qed.

(** The integer [parseInt(String(z))] reads is [z]. *)
Lemma mathInt_string_of_Z z : Cleanup.mathInt (Js.string_of_Z z) = Some z.
Proof.
  destruct z as [|p|p]; [reflexivity| |].
  - apply mathInt_string_of_pos.
  - unfold Js.string_of_Z. destruct (mathInt_string_of_pos p) as (Hp & Hall & Hne).
    rewrite mathInt_all_digits in Hp by assumption.
    rewrite mathInt_neg_digits, Hp by assumption. reflexivity.
Qed.

(** Integers below 2^53 are doubles: [Number] leaves them as they are. *)
Lemma to_double_small z : (Z.abs z < 2 ^ 53)%Z -> Cleanup.to_double z = z.
Proof.
  intros H. unfold Cleanup.to_double.
  destruct (Z.eq_dec z 0) as [->|Hz]; [reflexivity|].
  assert (Hl : (Z.log2 (Z.abs z) < 53)%Z) by (apply Z.log2_lt_pow2; lia).
  apply Z.ltb_lt in Hl. rewrite Hl.
  rewrite Z.min_l by (unfold Cleanup.infinity; lia).
  destruct z; reflexivity.
Qed.

(** [parseInt(String(t))] is [t] for a time value [t]. *)
Lemma parseInt_string_of_time z :
  (Z.abs z <=? 8640000000000000)%Z = true -> Cleanup.parseInt (Js.string_of_Z z) = Some z.
Proof.
  intros H. apply Z.leb_le in H. unfold Cleanup.parseInt.
  rewrite mathInt_string_of_Z. cbn [option_map]. rewrite to_double_small; [reflexivity|].
  lia.
Qed.

Lemma split_digits_sep a b :
  all_digits a = true -> Js.split "_" (a ++ String "_" b) = a :: Js.split "_" b.
Proof.
  induction a as [|x a IH]; intros Hd; [reflexivity|].
  cbn [all_digits] in Hd. apply andb_true_iff in Hd as [Hx Ha].
  cbn [append]. specialize (IH Ha).
  destruct (digit_cases x Hx) as [->|[->|[->|[->|[->|[->|[->|[->|[->| ->]]]]]]]]];
    cbn [Js.split]; rewrite IH; reflexivity.
Qed.

Lemma split_string_of_Z z b :
  Js.split "_" (Js.string_of_Z z ++ String "_" b) = Js.string_of_Z z :: Js.split "_" b.
Proof.
  destruct z as [|p|p]; [reflexivity| |].
  - destruct (mathInt_string_of_pos p) as (_ & Hall & _).
    apply split_digits_sep, Hall.
  - destruct (mathInt_string_of_pos p) as (_ & Hall & _).
    unfold Js.string_of_Z. cbn [append Js.split].
    rewrite split_digits_sep by exact Hall. reflexivity.
Qed.

Lemma string_length_app (a b : string) :
  String.length (a ++ b) = (String.length a + String.length b)%nat.
Proof. induction a as [|c a IH]; simpl; [reflexivity | now rewrite IH]. Qed.

Lemma substring_whole (s : string) : substring 0 (String.length s) s = s.
Proof. induction s as [|c s IH]; simpl; [reflexivity | now rewrite IH]. Qed.

Lemma substring_app (a b : string) :
  substring (String.length a) (String.length b) (a ++ b) = b.
Proof. induction a as [|c a IH]; simpl; [apply substring_whole | exact IH]. Qed.

Lemma ends_with_app (p x : string) : Js.ends_with p (x ++ p) = true.
Proof.
  unfold Js.ends_with. rewrite string_length_app.
  replace (String.length x + String.length p - String.length p)%nat
    with (String.length x) by lia.
  rewrite substring_app, String.eqb_refl. apply andb_true_iff. split; [|reflexivity].
  apply Nat.leb_le. lia.
Qed.

Lemma prefix_app (a b : string) : String.prefix a (a ++ b) = true.
Proof.
  induction a as [|c a IH]; simpl; [destruct b; reflexivity|].
  destruct (ascii_dec c c) as [_|Hne]; [exact IH | now destruct Hne].
Qed.

Lemma split_illustration r :
  Js.split "_" ("illustration_" ++ r) = "illustration" :: Js.split "_" r.
Proof. reflexivity. Qed.

End NameFacts.

(** X8: the file names the single-illustration and story routes give their
    images ([illustration_<Date.now()>_<random>.png]) are eligible for the
    retention sweep. The sweep reads back exactly the [Date.now()] value
    they were created with, whatever the random part. *)
Theorem illustration_name_round_trip :
  forall clk,
    Cleanup.eligible (Extract.illustrate_filename clk) = true /\
    Cleanup.timestamp (Extract.illustrate_filename clk) = Extract.now clk.
Proof.
  intros clk. unfold Extract.illustrate_filename. split.
  - unfold Cleanup.eligible. apply andb_true_iff. split; [apply NameFacts.prefix_app|].
    rewrite !append_assoc. apply NameFacts.ends_with_app.
  - unfold Cleanup.timestamp.
    rewrite NameFacts.split_illustration.
    change ("_" ++ ?r) with (String "_" r).
    rewrite NameFacts.split_string_of_Z. cbn [Js.at_index nth_error].
    now rewrite (NameFacts.parseInt_string_of_time _ (Extract.now_time_value clk)).
Qed.

(* ------------------------------------------------------------------ *)
(** ** The create page *)

(** X9: whatever sequence of Next, Back and Generate clicks the create page
    receives, starting from step 1, its current step stays between 1 and 4. *)
Theorem wizard_step_in_range :
  forall actions, (1 <= CreatePage.run actions <= 4)%nat.
Proof.
  intros actions. unfold CreatePage.run.
  assert (H : forall s, (1 <= s <= 4)%nat ->
                        (1 <= fold_left CreatePage.step actions s <= 4)%nat).
  { induction actions as [|a acts IH]; intros s Hs; simpl; [exact Hs|].
    apply IH. destruct a; simpl; unfold CreatePage.nextStep, CreatePage.prevStep.
    - destruct (Nat.ltb_spec s 4); lia.
    - destruct (Nat.ltb_spec 1 s); lia.
    - lia. }
  apply H. lia.
Qed.

Lemma firstn_app_firstn {A} n (x y : list A) :
  firstn n (x ++ firstn n y) = firstn n (x ++ y).
Proof. rewrite !firstn_app, firstn_firstn. f_equal. f_equal. lia. Qed.

(** X10: saving one or more generated stories one after the other to the
    local library leaves the 10 most recent stories, newest first, ahead of
    what was stored before. The stored list never exceeds 10 books. *)
Theorem library_keeps_ten_newest :
  forall {A} (stored : list A) (b : A) (bs : list A),
    CreatePage.save_books stored (b :: bs) = firstn 10 (rev (b :: bs) ++ stored) /\
    (length (CreatePage.save_books stored (b :: bs)) <= 10)%nat.
Proof.
  intros A stored b bs.
  assert (E : forall stored b, CreatePage.save_books stored (b :: bs)
                               = firstn 10 (rev (b :: bs) ++ stored)).
  { induction bs as [|c cs IH]; intros st x; [reflexivity|].
    change (CreatePage.save_books st (x :: c :: cs))
      with (CreatePage.save_books (firstn 10 (x :: st)) (c :: cs)).
    rewrite IH, firstn_app_firstn. simpl rev. rewrite <- !app_assoc. reflexivity. }
  split; [apply E|]. rewrite E, length_firstn. lia.
Qed.

(* ------------------------------------------------------------------ *)
(** ** The page illustrations of the story route *)

Module PagesFacts.
Import GenerateRoute.

Lemma nth_error_mapi_from {A B} (f : nat -> A -> B) m l i :
  nth_error (Batch.mapi_from f m l) i = option_map (f (m + i)%nat) (nth_error l i).
Proof.
  revert m i; induction l as [|x l IH]; intros m [|i]; cbn; try reflexivity.
  - now rewrite Nat.add_0_r.
  - rewrite IH. now rewrite Nat.add_succ_r.
Qed.

Lemma length_mapi_from {A B} (f : nat -> A -> B) m l :
  length (Batch.mapi_from f m l) = length l.
Proof. revert m; induction l as [|x l IH]; intros m; cbn; [|rewrite IH]; reflexivity. Qed.

Lemma generateIllustration_ok fe clk gen :
  exists v, fst (Extract.generateIllustration fe clk gen) = Ok v.
Proof.
  unfold Extract.generateIllustration.
  destruct (bind _ _) as [[a|e] w]; cbn; eauto.
Qed.

Lemma illustrate_page_shape pe pg :
  exists pg', fst (illustrate_page pe pg) = Ok pg' /\
    text pg' = text pg /\ activity pg' = activity pg /\ prompt pg' = prompt pg /\
    (Js.truthy (prompt pg) = false -> pg' = pg) /\
    (forall u, Js.truthy (prompt pg) = true ->
       fst (Extract.generateIllustration (fs pe) (clock pe)
              (generation pe (illustration_prompt
                                (match prompt pg with Some s => s | None => "" end))))
       = Ok (Some u) -> u <> "" -> imageUrl pg' = Some u).
Proof.
  unfold illustrate_page. destruct (Js.truthy (prompt pg)) eqn:Hp.
  - set (g := Extract.generateIllustration _ _ _).
    destruct g as [[o|e] w] eqn:Eg.
    + cbn [bind fst]. destruct (Js.truthy o) eqn:Ho.
      * cbn. eexists; repeat split; try discriminate.
        intros u _ Hu Hne. inversion Hu; subst. reflexivity.
      * destruct (fallback pe) as [[ok json]|m]; cbn;
          [destruct ok; [destruct json as [fu|m]|]|]; cbn;
          eexists; repeat split; try discriminate;
          intros u _ Hu Hne; inversion Hu; subst; cbn in Ho;
          apply String.eqb_neq in Hne; rewrite Hne in Ho; discriminate.
    + destruct (generateIllustration_ok (fs pe) (clock pe)
                  (generation pe (illustration_prompt
                     (match prompt pg with Some s => s | None => "" end)))) as [v Hv].
      fold g in Hv. rewrite Eg in Hv. discriminate.
  - cbn. eexists; repeat split; intros; first [discriminate | reflexivity].
Qed.

End PagesFacts.

(** X11: the page step of the story route never throws and returns one page
    per page, in order. Each page keeps its [text], [activity] and
    [prompt]. A page without a truthy prompt is returned unchanged. A page
    with a prompt for which [generateIllustration] produced a URL carries
    that URL. *)
Theorem generate_pages_keep_shape :
  forall env pages,
    exists pages', fst (GenerateRoute.illustrate_pages env pages) = Ok pages' /\
      length pages' = length pages /\
      forall i pg, nth_error pages i = Some pg ->
        exists pg', nth_error pages' i = Some pg' /\
          GenerateRoute.text pg' = GenerateRoute.text pg /\
          GenerateRoute.activity pg' = GenerateRoute.activity pg /\
          GenerateRoute.prompt pg' = GenerateRoute.prompt pg /\
          (Js.truthy (GenerateRoute.prompt pg) = false -> pg' = pg) /\
          (forall u, Js.truthy (GenerateRoute.prompt pg) = true ->
             fst (Extract.generateIllustration (GenerateRoute.fs (env i))
                    (GenerateRoute.clock (env i))
                    (GenerateRoute.generation (env i)
                       (GenerateRoute.illustration_prompt
                          (match GenerateRoute.prompt pg with Some s => s | None => "" end))))
             = Ok (Some u) -> u <> "" -> GenerateRoute.imageUrl pg' = Some u).
Proof.
  intros env pages. unfold GenerateRoute.illustrate_pages.
  set (d := {| GenerateRoute.text := ""; GenerateRoute.activity := None;
               GenerateRoute.prompt := None; GenerateRoute.imageUrl := None |}).
  rewrite (BatchFacts.all_ok d).
  2:{ apply Forall_forall. intros x Hx.
      apply BatchFacts.in_mapi_from in Hx as (i & pg & _ & ->).
      destruct (PagesFacts.illustrate_page_shape (env i) pg) as (pg' & H & _). eauto. }
  eexists; split; [reflexivity|]. split.
  - rewrite length_map. apply PagesFacts.length_mapi_from.
  - intros i pg Hi. rewrite nth_error_map, PagesFacts.nth_error_mapi_from, Hi. cbn.
    destruct (PagesFacts.illustrate_page_shape (env i) pg) as (pg' & H & Hrest).
    exists pg'. split; [|exact Hrest].
    unfold BatchPlan.value_or. now rewrite H.
Qed.

(* ------------------------------------------------------------------ *)
(** ** [POST] of the advanced route *)

Module AdvancedFacts.
Import AdvancedRoute.

Lemma advanced_process_ok se clk r i :
  exists v, fst (Extract.advanced_processImageResponse se clk r i) = Ok v.
Proof.
  unfold Extract.advanced_processImageResponse, Extract.process_response.
  destruct (match Extract.first_parts r with Some ps => _ | None => _ end) as [[a|e] w];
    cbn; eauto.
Qed.

Lemma below_ceiling (i : nat) (pc : Q) :
  Batch.QN i < pc -> (i < Z.to_nat (Qceiling pc))%nat.
Proof.
  intros H. assert (Hc : Batch.QN i < inject_Z (Qceiling pc))
    by (apply Qlt_le_trans with pc; [exact H | apply Qle_ceiling]).
  unfold Batch.QN in Hc. rewrite <- Zlt_Qlt in Hc. lia.
Qed.

Lemma not_le_lt (a b : Q) : Qle_bool a b = false -> b < a.
Proof.
  intros H. apply Qnot_le_lt. intros Hle. apply Qle_bool_iff in Hle. congruence.
Qed.

Lemma lt_not_le (a b : Q) : b < a -> Qle_bool a b = false.
Proof.
  intros H. apply not_true_iff_false. intros Hle. apply Qle_bool_iff in Hle.
  apply (Qlt_not_le _ _ H Hle).
Qed.

Lemma loop_resolves env ep pc f i :
  (forall j p, exists r, Batch.generation (env j) p = Resolves r) ->
  exists urls, fst (batch_loop env ep pc f i) = Ok urls /\
    Forall (fun u => u <> "") urls /\
    (length urls <= Z.to_nat (Qceiling pc) - i)%nat.
Proof.
  intros Hgen. revert i; induction f as [|f IH]; intros i; cbn [batch_loop].
  - exists []. repeat split; [constructor | cbn; lia].
  - destruct (Qle_bool pc (Batch.QN i)) eqn:Hle; cbn [negb].
    + exists []. repeat split; [constructor | cbn; lia].
    + apply not_le_lt in Hle. pose proof (below_ceiling _ _ Hle) as Hc.
      set (p := ep ++ _).
      destruct (Hgen i p) as [r Hr]. rewrite Hr. cbn [await].
      rewrite (BatchFacts.fst_bind_ok _ _ r) by reflexivity.
      destruct (advanced_process_ok (Batch.storage (env i)) (Batch.page_clock (env i)) r
                  (Some (Batch.QN i))) as [v Hv].
      rewrite (BatchFacts.fst_bind_ok _ _ v) by exact Hv.
      destruct (IH (S i)) as (urls & Hu & HF & Hlen).
      rewrite (BatchFacts.fst_bind_ok _ _ urls) by exact Hu. cbn.
      destruct (Js.truthy v) eqn:Ht; eexists; (split; [reflexivity|]).
      * destruct v as [u|]; [|discriminate]. cbn in Ht.
        split; [constructor; [|exact HF] | cbn; lia].
        intros ->. discriminate.
      * split; [exact HF | lia].
Qed.

Lemma loop_rejects env ep pc f i j msg :
  (i <= j < i + f)%nat -> Batch.QN j < pc ->
  (forall p, Batch.generation (env j) p = Rejects msg) ->
  exists m, fst (batch_loop env ep pc f i) = Exn m.
Proof.
  intros Hj Hlt Hrej. revert i Hj; induction f as [|f IH]; intros i Hj; [lia|].
  cbn [batch_loop].
  assert (Hi : Batch.QN i < pc).
  { apply Qle_lt_trans with (Batch.QN j); [|exact Hlt].
    unfold Batch.QN. rewrite <- Zle_Qle. lia. }
  rewrite (lt_not_le _ _ Hi). cbn [negb].
  set (p := ep ++ _).
  destruct (Batch.generation (env i) p) as [r|m] eqn:Hr.
  - assert (Hij : i <> j) by (intros ->; rewrite Hrej in Hr; discriminate).
    cbn [await].
    rewrite (BatchFacts.fst_bind_ok _ _ r) by reflexivity.
    destruct (advanced_process_ok (Batch.storage (env i)) (Batch.page_clock (env i)) r
                (Some (Batch.QN i))) as [v Hv].
    rewrite (BatchFacts.fst_bind_ok _ _ v) by exact Hv.
    destruct (IH (S i)) as [m Hm]; [lia|].
    exists m. apply MonadFacts.fst_bind_exn, Hm.
  - exists m. reflexivity.
Qed.

End AdvancedFacts.

(** X12: with an API key, a valid body, [batchGenerate] set and
    [pageCount > 1], the advanced route's batch branch behaves as follows.
    - When every model call resolves, it replies with the list of non-empty
      image URLs it obtained and [count] equal to that list's length, which
      is at most [Math.ceil(pageCount)].
    - When the model call of any page it reaches rejects, the whole request
      fails with a 500 error, and the images of the earlier pages are not
      reported. *)
Theorem advanced_batch_all_or_nothing :
  forall apiKey b env,
    Js.truthy apiKey = true -> AdvancedRoute.valid_body b = true ->
    AdvancedRoute.batchGenerate b = true -> 1 < AdvancedRoute.pageCount b ->
    ((forall j p, exists r, Batch.generation (env j) p = Resolves r) ->
     exists urls, fst (AdvancedRoute.POST apiKey b env)
                  = Ok (AdvancedRoute.Urls urls (length urls)) /\
       Forall (fun u => u <> "") urls /\
       (length urls <= Z.to_nat (Qceiling (AdvancedRoute.pageCount b)))%nat) /\
    (forall j msg, Batch.QN j < AdvancedRoute.pageCount b ->
     (forall p, Batch.generation (env j) p = Rejects msg) ->
     exists m, fst (AdvancedRoute.POST apiKey b env) = Ok (AdvancedRoute.ErrorReply 500 m)).
Proof.
  intros apiKey b env Hk Hv Hb Hpc.
  assert (Hv' := Hv). unfold AdvancedRoute.valid_body in Hv'.
  apply andb_true_iff in Hv' as [_ H5]. apply Qle_bool_iff in H5.
  unfold AdvancedRoute.POST. rewrite Hk, Hv, Hb, (AdvancedFacts.lt_not_le _ _ Hpc).
  cbn [negb andb].
  set (ep := Prompt.advanced_prompt _ _ _ _ _ _ _).
  split.
  - intros Hgen.
    destruct (AdvancedFacts.loop_resolves env ep (AdvancedRoute.pageCount b) 5 0 Hgen)
      as (urls & Hu & HF & Hlen).
    exists urls. split; [|split; [exact HF | lia]].
    apply BatchFacts.fst_try_catch_ok. rewrite (BatchFacts.fst_bind_ok _ _ urls) by exact Hu.
    reflexivity.
  - intros j msg Hj Hrej.
    assert (Hj5 : (j < 5)%nat).
    { assert (Hq : Batch.QN j < inject_Z 5)
        by (apply Qlt_le_trans with (AdvancedRoute.pageCount b); assumption).
      unfold Batch.QN in Hq. rewrite <- Zlt_Qlt in Hq. lia. }
    destruct (AdvancedFacts.loop_rejects env ep (AdvancedRoute.pageCount b) 5 0 j msg)
      as [m Hm]; [lia | exact Hj | exact Hrej |].
    destruct (AdvancedRoute.batch_loop env ep (AdvancedRoute.pageCount b) 5 0) as [[x|e] w];
      cbn in Hm; inversion Hm; subst. exists m. reflexivity.
Qed.

Lemma advanced_batch_all_or_nothing_witness :
  exists m, fst (AdvancedRoute.POST (Some "key") (MoreSamples.advanced_body true 3)
                   (fun j => if (j =? 1)%nat then MoreSamples.page_env_rejects
                             else Samples.page_env_ok))
            = Ok (AdvancedRoute.ErrorReply 500 m).
Proof.
  apply (proj2 (advanced_batch_all_or_nothing (Some "key") (MoreSamples.advanced_body true 3)
                  (fun j => if (j =? 1)%nat then MoreSamples.page_env_rejects
                            else Samples.page_env_ok)
                  eq_refl eq_refl eq_refl eq_refl) 1%nat "Quota exceeded" eq_refl).
  intros p. reflexivity.
Defined.

(** X15: with an API key and a valid body, when the batch branch is not
    taken ([batchGenerate] unset or [pageCount <= 1]), the advanced route
    replies as follows:
    - 500 with the message when the model call rejects;
    - 502 "No image returned from model" when no part has non-empty inline
      data, and also when the upload of that data yields [null];
    - otherwise the URL the upload yields, with the feature flags of the
      request. *)
Theorem advanced_single_replies :
  forall apiKey b env,
    Js.truthy apiKey = true -> AdvancedRoute.valid_body b = true ->
    AdvancedRoute.batchGenerate b = false \/ AdvancedRoute.pageCount b <= 1 ->
    let pe := env 0%nat in
    let call := Batch.generation pe
                  (Prompt.advanced_prompt (AdvancedRoute.prompt b)
                     (AdvancedRoute.characterDescription b) (AdvancedRoute.previousImageUrl b)
                     (AdvancedRoute.style b) (AdvancedRoute.consistencyMode b)
                     (AdvancedRoute.editMode b) (AdvancedRoute.fusionMode b)) in
    let reply := fst (AdvancedRoute.POST apiKey b env) in
    (forall msg, call = Rejects msg -> reply = Ok (AdvancedRoute.ErrorReply 500 msg)) /\
    (forall r, call = Resolves r ->
       match Responses.first_inline (Extract.response_parts r) with
       | None => reply = Ok (AdvancedRoute.ErrorReply 502 "No image returned from model")
       | Some d =>
           let up := fst (Storage.uploadImageToStorage (Batch.storage pe) (FromBase64 d)
                            (Extract.advanced_filename (Batch.page_clock pe) None)
                            Storage.default_bucket) in
           (up = Ok None ->
            reply = Ok (AdvancedRoute.ErrorReply 502 "No image returned from model")) /\
           (forall u, up = Ok (Some u) -> u <> "" ->
            reply = Ok (AdvancedRoute.Single u (AdvancedRoute.consistencyMode b)
                          (AdvancedRoute.editMode b) (AdvancedRoute.fusionMode b)
                          (AdvancedRoute.style b)))
       end).
Proof.
  intros apiKey b env Hk Hv Hsingle pe call reply. subst reply.
  assert (Hbr : AdvancedRoute.batchGenerate b && negb (Qle_bool (AdvancedRoute.pageCount b) 1)
                = false).
  { destruct Hsingle as [-> | Hle]; [reflexivity|].
    apply Qle_bool_iff in Hle. rewrite Hle. apply andb_false_r. }
  unfold AdvancedRoute.POST. rewrite Hk, Hv, Hbr. cbn [negb]. fold pe call.
  split.
  - intros msg Hc. rewrite Hc. reflexivity.
  - intros r Hc. rewrite Hc. cbn [await bind ret].
    unfold Extract.advanced_processImageResponse.
    rewrite process_response_first_inline.
    destruct (Responses.first_inline (Extract.response_parts r)) as [d|]; [|reflexivity].
    destruct (Storage.uploadImageToStorage (Batch.storage pe) (FromBase64 d)
                (Extract.advanced_filename (Batch.page_clock pe) None) Storage.default_bucket)
      as [[[[|c u]|]|e] w]; cbn; split; intros; try discriminate; try reflexivity.
    + inversion H; subst. contradiction.
    + inversion H; subst. reflexivity.
Qed.

Lemma advanced_single_replies_witness :
  fst (AdvancedRoute.POST (Some "key") (MoreSamples.advanced_body false 1)
         (fun _ => Samples.page_env_ok))
  = Ok (AdvancedRoute.Single "https://cdn.example/story-images/page.png" false false false
          Prompt.realistic).
Proof.
  destruct (advanced_single_replies (Some "key") (MoreSamples.advanced_body false 1)
              (fun _ => Samples.page_env_ok) eq_refl eq_refl (or_introl eq_refl)) as [_ H].
  apply (proj2 (H MoreSamples.image_response eq_refl)); [reflexivity | discriminate].
Defined.

(* ------------------------------------------------------------------ *)
(** ** The image proxy *)

Module ProxyFacts.

Lemma split_at_sep (c : ascii) a b :
  exists l, l <> [] /\ Js.split c (a ++ String c b) = (l ++ Js.split c b)%list.
Proof.
  induction a as [|x a IH]; cbn [append Js.split].
  - rewrite Ascii.eqb_refl. exists [""]. split; [discriminate | reflexivity].
  - destruct IH as (l & Hl & ->).
    destruct (Ascii.eqb x c).
    + exists ("" :: l). split; [discriminate | reflexivity].
    + destruct l as [|w ws]; [contradiction|].
      exists (String x w :: ws). split; [discriminate | reflexivity].
Qed.

Lemma split_without_dot s : Js.includes "." s = false -> Js.split "." s = [s].
Proof.
  induction s as [|x s IH]; [reflexivity|]. cbn [Js.includes].
  intros H. apply orb_false_iff in H as [Hp Hs].
  cbn [Js.split]. rewrite (IH Hs).
  destruct (Ascii.eqb_spec x "."%char) as [->|Hx]; [|reflexivity].
  cbn [String.prefix] in Hp. destruct (ascii_dec "." ".") as [_|Hne]; [|now destruct Hne].
  destruct s; cbn in Hp; discriminate Hp.
Qed.

End ProxyFacts.

(** X13: when the image proxy serves a file (the path stays under
    public/images and the read succeeds), the content type comes from the
    text after the last dot of the last path segment, lower-cased. So
    "photo.JPG" is served as image/jpeg, and "a.png.gif" as image/gif. The
    reply always carries the one-year immutable cache header. *)
Theorem image_proxy_type_from_last_extension :
  forall (cwd : string) (pre : list string) (base ext : string)
         (readFile : string -> promise buffer) (data : buffer),
    let segments := app pre [base ++ "." ++ ext] in
    Js.starts_with (Path.join [cwd; "public"; "images"])
      (Path.join ([cwd; "public"; "images"] ++ segments)) = true ->
    readFile (Path.join ([cwd; "public"; "images"] ++ segments)) = Resolves data ->
    Js.includes "." ext = false ->
    ImageProxy.GET cwd segments readFile
    = ImageProxy.Served (ImageProxy.content_type (Some (ImageProxy.to_lower ext))) data
        "public, max-age=31536000, immutable".
Proof.
  intros cwd pre base ext readFile data segments Hin Hread Hext.
  unfold ImageProxy.GET. rewrite Hin. cbn [negb]. rewrite Hread.
  unfold segments. rewrite map_app. cbn [map]. rewrite last_last.
  destruct (ProxyFacts.split_at_sep "." base ext) as (l & _ & Hs).
  change ("." ++ ext) with (String "." ext).
  rewrite Hs, ProxyFacts.split_without_dot by exact Hext.
  rewrite map_app. cbn [map]. rewrite last_last. reflexivity.
Qed.

Lemma image_proxy_type_from_last_extension_witness :
  ImageProxy.GET "/srv/app" ["photos"; "Lighthouse.v2.JPG"]
    (fun _ => Resolves (FromBase64 "/9j/4AAQ"))
  = ImageProxy.Served "image/jpeg" (FromBase64 "/9j/4AAQ")
      "public, max-age=31536000, immutable".
Proof.
  exact (image_proxy_type_from_last_extension "/srv/app" ["photos"] "Lighthouse.v2" "JPG"
           (fun _ => Resolves (FromBase64 "/9j/4AAQ")) (FromBase64 "/9j/4AAQ")
           eq_refl eq_refl eq_refl).
Defined.

(* ------------------------------------------------------------------ *)
(** ** The prompt composers *)

Lemma render_snoc (l : list string) (x : string) :
  Prompt.render (l ++ [x]) = Prompt.render l ++ x.
Proof.
  induction l as [|a l IH]; simpl.
  - reflexivity.
  - rewrite !render_cons, IH. apply append_assoc.
Qed.

(** X14: the composed prompts end with the lighting, colour and composition
    clause followed by the caller's own prompt text. This holds for the
    single-illustration route's prompt, the advanced route's enhanced prompt
    (sent as is on its single-image branch; its batch branch appends a page
    note after it), the batch route's page prompt and the story route's
    [generateIllustration] prompt. *)
Theorem prompts_end_with_user_prompt :
  forall prompt cd prev st cm em fm pageIndex,
    (exists pre, Prompt.illustrate_prompt prompt cd prev st cm em
                 = pre ++ Prompt.closing_clause ++ prompt) /\
    (exists pre, Prompt.advanced_prompt prompt cd prev st cm em fm
                 = pre ++ Prompt.closing_clause ++ prompt) /\
    (exists pre, Prompt.batch_prompt prompt pageIndex cd st cm fm
                 = pre ++ Prompt.closing_clause ++ prompt) /\
    (exists pre, GenerateRoute.illustration_prompt prompt
                 = pre ++ Prompt.closing_clause ++ prompt).
Proof.
  intros. unfold Prompt.illustrate_prompt, Prompt.advanced_prompt, Prompt.batch_prompt,
    Prompt.illustrate_pieces, Prompt.advanced_pieces, Prompt.batch_pieces,
    GenerateRoute.illustration_prompt.
  rewrite !app_assoc, !render_snoc.
  repeat split; eexists; [reflexivity | reflexivity | reflexivity |].
  rewrite !append_assoc. reflexivity.
Qed.
